(** * Ingestion pipeline of the satellite product catalogue

    A shallow embedding of [backend/scanner/ingest.py] (with the helpers
    it calls from [core/helpers.py] and the tables of [config.py]), and the
    properties of the ingestion pipeline stated over it.

    Conventions of the embedding.
    - Python [str] values are [string]s, i.e. sequences of bytes (UTF-8);
      character classes ([\d], case folding) are the ASCII ones.
    - A Python [set] is a [gset], a [dict] a [gmap]; iterating a set goes
      through [elements], whose order is as unspecified as Python's.
    - Exceptions are values of [exn]; a computation that can raise or
      print lives in the monad [M] (trace of events, then result or
      exception).
    - Libraries the code calls (dateutil, xxhash) are interfaces, given
      as type classes; NumPy's NaN-aware reductions are modelled on
      extended rationals. *)

From Stdlib Require Import ZArith Ascii String List Bool Lia QArith Qcanon.
From stdpp Require Import base option list strings gmap sets numbers sorting.

Set Warnings "-register-all".

Local Open Scope string_scope.
Local Open Scope list_scope.
Local Open Scope Z_scope.

(** * The model *)

(** ** Strings *)

Definition is_digit (c : ascii) : bool :=
  let n := nat_of_ascii c in (48 <=? n)%nat && (n <=? 57)%nat.

(** [str.lower] on one ASCII character. *)
Definition lower_ascii (c : ascii) : ascii :=
  let n := nat_of_ascii c in
  if (65 <=? n)%nat && (n <=? 90)%nat then ascii_of_nat (n + 32) else c.

Fixpoint lower (s : string) : string :=
  match s with
  | EmptyString => EmptyString
  | String c s' => String (lower_ascii c) (lower s')
  end.

(** [sub in s] *)
Fixpoint contains (sub s : string) : bool :=
  String.prefix sub s ||
  match s with
  | EmptyString => false
  | String _ s' => contains sub s'
  end.

Fixpoint string_rev_acc (s acc : string) : string :=
  match s with
  | EmptyString => acc
  | String c s' => string_rev_acc s' (String c acc)
  end.

(** [s.endswith(suffix)] *)
Definition endswith (s suffix : string) : bool :=
  String.prefix (string_rev_acc suffix "") (string_rev_acc s "").

(** [s.split(sep)[0]] for a one-character separator: the text before the
    first separator, the whole string when there is none. *)
Fixpoint first_token (sep : ascii) (s : string) : string :=
  match s with
  | EmptyString => EmptyString
  | String c s' => if Ascii.eqb c sep then EmptyString else String c (first_token sep s')
  end.

(** ** Paths (pathlib, POSIX flavour) *)

(** [Path.name]: the last component; empty components (doubled or
    trailing separators) are dropped. *)
Fixpoint name_acc (s cur last : string) : string :=
  match s with
  | EmptyString => match cur with EmptyString => last | _ => cur end
  | String c s' =>
      if Ascii.eqb c "/"
      then name_acc s' EmptyString (match cur with EmptyString => last | _ => cur end)
      else name_acc s' (cur +:+ String c EmptyString) last
  end.

Definition path_name (p : string) : string := name_acc p "" "".

(** Index of the last ["."] of a name ([str.rfind]), if any. *)
Fixpoint rfind_dot (s : string) (i : nat) (last : option nat) : option nat :=
  match s with
  | EmptyString => last
  | String c s' => rfind_dot s' (S i) (if Ascii.eqb c "." then Some i else last)
  end.

(** [Path.stem]: the name without its last suffix; a leading or a trailing
    dot starts no suffix. *)
Definition path_stem (p : string) : string :=
  let name := path_name p in
  match rfind_dot name 0 None with
  | Some i =>
      if (0 <? i)%nat && (i <? String.length name - 1)%nat
      then String.substring 0 i name else name
  | None => name
  end.

(** ** Timestamps *)

Definition datetime_ok (y mo d h mi s : Z) : bool :=
  (1 <=? y) && (y <=? 9999) && (1 <=? mo) && (mo <=? 12) &&
  (1 <=? d) && (d <=? 31) && (0 <=? h) && (h <=? 23) &&
  (0 <=? mi) && (mi <=? 59) && (0 <=? s) && (s <=? 59).

(** A [datetime.datetime] value, to the second.  The constructor of the
    Python class refuses fields outside these ranges, so no value of the
    type has them. *)
Record datetime := mk_datetime {
  year : Z; month : Z; day : Z;
  hour : Z; minute : Z; second : Z;
  datetime_range : datetime_ok year month day hour minute second = true
}.

(** [datetime(y, mo, d, h, mi, s)]; [None] stands for its [ValueError]. *)
Definition datetime_of (y mo d h mi s : Z) : option datetime :=
  match bool_dec (datetime_ok y mo d h mi s) true with
  | left H => Some (mk_datetime y mo d h mi s H)
  | right _ => None
  end.

Definition digit (n : Z) : ascii := ascii_of_nat (Z.to_nat (48 + n mod 10)).

Definition pad2 (n : Z) : string :=
  String (digit (n / 10)) (String (digit n) EmptyString).

Definition pad4 (n : Z) : string :=
  String (digit (n / 1000)) (String (digit (n / 100)) (pad2 n)).

(** [dt.strftime("%Y-%m-%dT%H:%M:%S")] *)
Definition strftime (dt : datetime) : string :=
  pad4 (year dt) +:+ "-" +:+ pad2 (month dt) +:+ "-" +:+ pad2 (day dt) +:+ "T" +:+
  pad2 (hour dt) +:+ ":" +:+ pad2 (minute dt) +:+ ":" +:+ pad2 (second dt).

(** The two parsers of [dateutil.parser] the code calls.  [None] stands
    for any exception they raise. *)
Class Dateutil := {
  isoparse : string → option datetime;
  parse : string → option datetime
}.

(** *** Patterns *)

Inductive cclass := Digit | Lit (c : ascii).

Definition cclass_matches (k : cclass) (c : ascii) : bool :=
  match k with
  | Digit => is_digit c
  | Lit c' => Ascii.eqb c c'
  end.

(** Match a sequence of character classes at the start of [s]; the
    matched text on success. *)
Fixpoint match_here (pat : list cclass) (s : string) : option string :=
  match pat with
  | [] => Some EmptyString
  | k :: pat' =>
      match s with
      | EmptyString => None
      | String c s' =>
          if cclass_matches k c
          then String c <$> match_here pat' s'
          else None
      end
  end.

(** [\d{8}T\d{6}] *)
Definition stamp_pattern : list cclass :=
  replicate 8 Digit ++ [Lit "T"] ++ replicate 6 Digit.

(** [(\d{8}T\d{6})_(\d{8}T\d{6})] *)
Definition stamp_pair_pattern : list cclass :=
  stamp_pattern ++ [Lit "_"] ++ stamp_pattern.

(** [re.search] of the pattern above: the leftmost match, as its two
    groups. *)
Fixpoint search_stamp_pair (s : string) : option (string * string) :=
  match match_here stamp_pair_pattern s with
  | Some m => Some (String.substring 0 15 m, String.substring 16 15 m)
  | None =>
      match s with
      | EmptyString => None
      | String _ s' => search_stamp_pair s'
      end
  end.

Section Timestamps.
Context {du : Dateutil}.

Definition extract_times_from_filename (nc_path : string) : string * string :=
  let name := path_stem nc_path in
  match search_stamp_pair name with
  | Some (g1, g2) =>
      match isoparse g1 with
      | Some d1 =>
          match isoparse g2 with
          | Some d2 => (strftime d1, strftime d2)
          | None => ("", "")
          end
      | None => ("", "")
      end
  | None => ("", "")
  end.

Definition normalize_datetime (value : string) : string :=
  match value with
  | EmptyString => ""
  | _ =>
      match isoparse value with
      | Some dt => strftime dt
      | None =>
          match parse value with
          | Some dt => strftime dt
          | None => ""
          end
      end
  end.

End Timestamps.

(** The shape [YYYY-MM-DDTHH:MM:SS]. *)
Definition canonical_pattern : list cclass :=
  replicate 4 Digit ++ [Lit "-"] ++ replicate 2 Digit ++ [Lit "-"] ++
  replicate 2 Digit ++ [Lit "T"] ++ replicate 2 Digit ++ [Lit ":"] ++
  replicate 2 Digit ++ [Lit ":"] ++ replicate 2 Digit.

Definition canonical (s : string) : bool :=
  match match_here canonical_pattern s with
  | Some m => String.eqb m s
  | None => false
  end.

(** ** Exceptions, events and the monad of effects *)

Inductive exn := FileNotFoundError | OSError | ValueError | KeyError | IndexError.

(** A line printed on standard output. *)
Inductive LogLine :=
| TooLarge (name : string) (size : Z)   (* [extract_metadata] ⚠ Archivo demasiado grande *)
| FileFailed (name : string) (exc : exn). (* ⚠ name: exc *)

(** What a run does to the outside that the properties below observe. *)
Inductive Event :=
| EvStat (path : string)
| EvOpenXarray (path : string)
| EvOpenDataset (path : string)
| EvOpenBinary (path : string)
| EvPrint (line : LogLine).

(** Trace of events, then an exception or a value. *)
Definition M (A : Type) : Type := list Event * (exn + A).

#[global] Instance M_ret : MRet M := λ A a, ([], inr a).

#[global] Instance M_bind : MBind M := λ A B k m,
  match m with
  | (t, inl e) => (t, inl e)
  | (t, inr a) => let '(t', r) := k a in (t ++ t', r)
  end.

Definition raise {A} (e : exn) : M A := ([], inl e).
Definition emit (ev : Event) : M unit := ([ev], inr tt).

(** [try: m  except Exception as exc: h exc] *)
Definition try_except {A} (m : M A) (h : exn → M A) : M A :=
  match m with
  | (t, inl e) => let '(t', r) := h e in (t ++ t', r)
  | (t, inr a) => (t, inr a)
  end.

(** [try: m  except ValueError: h]; any other exception passes. *)
Definition except_ValueError {A} (m : M A) (h : M A) : M A :=
  match m with
  | (t, inl ValueError) => let '(t', r) := h in (t ++ t', r)
  | _ => m
  end.

(** A pure step that may raise. *)
Definition lift {A} (r : exn + A) : M A := ([], r).

Definition trace {A} (m : M A) : list Event := fst m.
Definition result {A} (m : M A) : exn + A := snd m.

(** ** NumPy: floats and NaN-aware reductions *)

(** An IEEE double, as far as the reductions tell values apart: not-a-number,
    the two infinities, and the finite values, taken as exact rationals in
    lowest terms (rounding is not modelled). *)
Inductive float := NaN | NegInf | Finite (q : Q) | PosInf.

(** A NumPy array, flattened; its shape is its length. *)
Definition ndarray := list float.

Definition is_nan (x : float) : bool :=
  match x with NaN => true | _ => false end.

Definition is_finite (x : float) : bool :=
  match x with Finite _ => true | _ => false end.

(** [x <= y]; false as soon as one side is NaN. *)
Definition float_leb (x y : float) : bool :=
  match x, y with
  | NaN, _ | _, NaN => false
  | NegInf, _ => true
  | _, PosInf => true
  | Finite p, Finite q => Qle_bool p q
  | _, _ => false
  end.

(** [np.fmin], [np.fmax]: the other operand when one is NaN. *)
Definition fmin (x y : float) : float :=
  if is_nan x then y else if is_nan y then x else if float_leb x y then x else y.

Definition fmax (x y : float) : float :=
  if is_nan x then y else if is_nan y then x else if float_leb x y then y else x.

Definition fadd (x y : float) : float :=
  match x, y with
  | NaN, _ | _, NaN => NaN
  | PosInf, NegInf | NegInf, PosInf => NaN
  | PosInf, _ | _, PosInf => PosInf
  | NegInf, _ | _, NegInf => NegInf
  | Finite p, Finite q => Finite (Qred (p + q))
  end.

(** Division by a positive count. *)
Definition fdiv_count (x : float) (n : nat) : float :=
  match x with
  | Finite p => Finite (Qred (p / inject_Z (Z.of_nat n)))
  | _ => x
  end.

(** [ufunc.reduce] over a flattened array; no identity, so an empty array
    raises [ValueError]. *)
Definition reduce (f : float → float → float) (a : ndarray) : M float :=
  match a with
  | [] => raise ValueError
  | x :: a' => mret (foldl f x a')
  end.

(** [float(np.nanmin(a))], [float(np.nanmax(a))]: NaN are skipped; NaN when
    there is nothing else. *)
Definition np_nanmin (a : ndarray) : M float := reduce fmin a.
Definition np_nanmax (a : ndarray) : M float := reduce fmax a.

(** [np.nanmean] of one column: the mean of its values that are not NaN,
    NaN when there is none. *)
Definition nanmean_column (col : list float) : float :=
  let vals := filter (λ x, is_nan x = false) col in
  match vals with
  | [] => NaN
  | _ => fdiv_count (foldl fadd (Finite 0) vals) (length vals)
  end.

(** The columns of a stack of [n]-element rows. *)
Fixpoint columns (n : nat) (rows : list ndarray) : list (list float) :=
  match n with
  | O => []
  | S n' => map (λ r, hd NaN r) rows :: columns n' (map (λ r, tl r) rows)
  end.

(** [np.array(rows)]: the rows must have one shape. *)
Definition np_array (rows : list ndarray) : M (list ndarray) :=
  match rows with
  | [] => mret []
  | r :: rest =>
      if forallb (λ r', Nat.eqb (length r') (length r)) rest
      then mret rows else raise ValueError
  end.

(** [np.nanmean(stack, axis=0)] *)
Definition np_nanmean_axis0 (stack : list ndarray) : ndarray :=
  match stack with
  | [] => []
  | r :: _ => map nanmean_column (columns (length r) stack)
  end.

(** ** Files *)

(** A variable of an [xarray.Dataset]: its [standard_name] attribute
    ([""] when it has none) and its values. *)
Record XrVariable := {
  standard_name : string;
  xr_values : ndarray
}.

(** [ds.variables], in the dataset's order. *)
Definition XrDataset := list (string * XrVariable).

(** A group of a [netCDF4.Dataset]: its variables and its subgroups. *)
Inductive Group :=
| mk_group (variables : list (string * ndarray)) (groups : list (string * Group)).

(** The root group with the global attributes. *)
Record Dataset := {
  root : Group;
  ncattrs : gmap string string
}.

(** [getattr(nc, name, "")] *)
Definition getattr (nc : Dataset) (name : string) : string :=
  default "" (ncattrs nc !! name).

(** What the file system and the two readers answer for one path. *)
Record NcFile := {
  st_size : Z;                       (* [nc_path.stat().st_size] *)
  head8k : exn + list Byte.byte;     (* [open(nc_path, "rb").read(8192)] *)
  xr_view : exn + XrDataset;         (* [xr.open_dataset(nc_path, ...)] *)
  nc_view : exn + Dataset            (* [Dataset(nc_path)] *)
}.

(** The files under the data directory. *)
Definition FS := gmap string NcFile.

(** [xxhash.xxh64_hexdigest] *)
Class Xxhash := {
  xxh64_hexdigest : list Byte.byte → string
}.

(** ** The alias table ([config.py]) *)

(** The entries of the dict literal, in the order they are written. *)
Definition VARIABLES_ALIAS_items : list (string * string) := [
  ("sea_surface_temperature", "Sea Surface Temperature");
  ("analysed_sst", "Sea Surface Temperature");
  ("sst", "Sea Surface Temperature");
  ("sea_ice_fraction", "Sea Ice Fraction");
  ("ice_fraction", "Sea Ice Fraction");
  ("wind_speed", "Wind Speed");
  ("wind_speed_over_ocean", "Wind Speed");
  ("FRP_MWIR", "Fire Radiative Power (MWIR)");
  ("FRP_SWIR", "Fire Radiative Power (SWIR)");
  ("ozone_total_vertical_column", "Ozone Total Column");
  ("carbonmonoxide_total_column", "Carbon Monoxide Column");
  ("nitrogendioxide_tropospheric_column", "Nitrogen Dioxide Column");
  ("nitrogendioxide_stratospheric_column", "Nitrogen Dioxide Stratospheric Column");
  ("sulfurdioxide_total_vertical_column", "Sulfur Dioxide Column");
  ("formaldehyde_tropospheric_vertical_column", "Formaldehyde Tropospheric Column");
  ("formaldehyde_tropospheric_vertical_column_precision", "Formaldehyde Precision");
  ("methane_mixing_ratio_bias_corrected", "Methane (CH4) Column");
  ("aerosol_index_354_388", "Aerosol Index (354–388 nm)");
  ("aerosol_index_340_380", "Aerosol Index (340–380 nm)");
  ("aerosol_index_335_367", "Aerosol Index (335–367 nm)");
  ("absorbing_aerosol_index", "Aerosol Index");
  ("aerosol_height", "Aerosol Layer Height");
  ("cloud_fraction", "Cloud Fraction");
  ("cloud_top_pressure", "Cloud Top Pressure");
  ("cloud_optical_depth", "Cloud Optical Depth");
  ("cloud_base_pressure", "Cloud Base Pressure");
  ("cloud_albedo", "Cloud Albedo");
  ("sea_level_anomaly", "Sea Level Anomaly");
  ("AOD_550", "AOD 550 nm");
  ("AOD_550_Land", "AOD 550 nm (Land)");
  ("AOD_550_Merged_OceanLand", "AOD 550 nm (Merged)");
  ("AOD_670", "AOD 670 nm");
  ("AOD_865", "AOD 865 nm");
  ("AOD_1600", "AOD 1600 nm");
  ("AOD_2250", "AOD 2250 nm");
  ("wind_direction", "Wind Direction");
  ("significant_wave_height", "Significant Wave Height");
  ("ozone_number_density", "Ozone Number Density");
  ("ozone_partial_column", "Ozone Partial Column");
  ("air_temperature", "Air Temperature (Profile)");
  ("specific_humidity", "Specific Humidity (Profile)");
  ("fire_mask", "Active Fire Mask");
  ("FP_power", "Fire Radiative Power");
  ("power", "Fire Radiative Power");
  ("FRP", "Fire Radiative Power");
  ("sea_surface_height", "Sea Surface Height");
  ("sea_level_anomaly", "Sea Level Anomaly");
  ("significant_wave_height", "Significant Wave Height");
  ("AOD_550", "Aerosol Optical Depth 550 nm");
  ("aod550", "Aerosol Optical Depth 550 nm");
  ("FRP_MWIR", "Fire Radiative Power (MWIR)");
  ("FRP_SWIR", "Fire Radiative Power (SWIR)");
  ("wind_speed", "Wind Speed");
  ("wind_direction", "Wind Direction");
  ("sea_surface_temperature", "Sea Surface Temperature");
  ("analysed_sst", "Sea Surface Temperature");
  ("sst", "Sea Surface Temperature");
  ("nitrogendioxide_total_column", "Nitrogen Dioxide Column");
  ("nitrogendioxide_tropospheric_column", "Nitrogen Dioxide Tropospheric Column");
  ("nitrogendioxide_stratospheric_column", "Nitrogen Dioxide Stratospheric Column");
  ("ozone_profile", "Ozone Profile");
  ("aerosol_layer_height", "Aerosol Layer Height")
].

(** The dict: where a key is written twice, the later entry stays. *)
Definition VARIABLES_ALIAS : gmap string string :=
  foldl (λ d kv, <[kv.1 := kv.2]> d) ∅ VARIABLES_ALIAS_items.

Definition MAX_SIZE_MB : Z := 700.

(** ** Records *)

(** The tuple [extract_metadata] builds for one product, in the order of
    the columns of the insert. *)
Record Meta := {
  file_path : string;
  product_name : string;
  datetime_start : string;
  datetime_end : string;
  satellite : string;
  instrument : string;
  product_type : string;
  size_bytes : Z;
  checksum : string
}.

(** [(lat_min, lat_max, lon_min, lon_max)], each a float or [None]. *)
Record BBox := {
  lat_min : option float;
  lat_max : option float;
  lon_min : option float;
  lon_max : option float
}.

Definition no_bbox : BBox :=
  {| lat_min := None; lat_max := None; lon_min := None; lon_max := None |}.

(** What [extract_metadata] returns: [(metas, bboxes)] or [(exc, None)]. *)
Inductive Outcome :=
| Records (metas : list Meta) (bboxes : list BBox)
| Failure (exc : exn).

(** ** Geospatial extraction *)

(** Truth value of a name or [None]. *)
Definition truthy (o : option string) : bool :=
  match o with
  | Some (String _ _) => true
  | _ => false
  end.

Definition str_in (s : string) (l : list string) : bool :=
  existsb (String.eqb s) l.

(** [name in ds.variables] *)
Definition has_variable {A} (vars : list (string * A)) (name : string) : bool :=
  existsb (λ nv, String.eqb nv.1 name) vars.

(** [vars[name]] *)
Fixpoint lookup_variable {A} (vars : list (string * A)) (name : string) : option A :=
  match vars with
  | [] => None
  | (n, v) :: rest => if String.eqb n name then Some v else lookup_variable rest name
  end.

(** An anchor [$] also matches before a final newline. *)
Definition at_end (p : string → bool) (s : string) : bool :=
  p s ||
  match String.length s with
  | O => false
  | S n =>
      match String.get n s with
      | Some "010"%char => p (String.substring 0 n s)
      | _ => false
      end
  end.

(** [re.search(r"(?:^|[_])lat(?:itude)?$", n, re.I)] and its longitude twin:
    [short] is ["lat"], [long] is ["latitude"]. *)
Definition coord_regex (short long : string) (n : string) : bool :=
  at_end (λ l, String.eqb l short || String.eqb l long ||
               endswith l ("_" +:+ short) || endswith l ("_" +:+ long))
         (lower n).

(** [find_lat_lon] of [core/helpers.py]; it raises [ValueError] when no
    pair of names is found. *)
Definition find_lat_lon (ds : XrDataset) : M (string * string) :=
  (* 1) CF standard_name: the last variable carrying each tag *)
  let '(lat_name, lon_name) :=
    foldl (λ acc nv,
             let std := lower (standard_name nv.2) in
             (if str_in std ["latitude"; "grid_latitude"] then Some nv.1 else acc.1,
              if str_in std ["longitude"; "grid_longitude"] then Some nv.1 else acc.2))
          (None, None) ds in
  if truthy lat_name && truthy lon_name
  then mret (default "" lat_name, default "" lon_name)
  (* 2) nav_lat / nav_lon *)
  else if has_variable ds "nav_lat" && has_variable ds "nav_lon"
  then mret ("nav_lat", "nav_lon")
  (* 3) regex fallback: the first variable matching each pattern *)
  else
    let lat := head (filter (λ n, coord_regex "lat" "latitude" n = true) ds.*1) in
    let lon := head (filter (λ n, coord_regex "lon" "longitude" n = true) ds.*1) in
    if truthy lat && truthy lon
    then mret (default "" lat, default "" lon)
    else raise ValueError.

(** [sorted(names)] *)
Definition sorted (names : list string) : list string :=
  merge_sort (λ a b : string, String.leb a b) names.

(** [ds[v].values] *)
Definition values_of (ds : XrDataset) (v : string) : M ndarray :=
  match lookup_variable ds v with
  | Some var => mret (xr_values var)
  | None => raise KeyError
  end.

(** [[ds[v].values for v in names]] *)
Fixpoint all_values_of (ds : XrDataset) (names : list string) : M (list ndarray) :=
  match names with
  | [] => mret []
  | v :: rest => a ← values_of ds v; vals ← all_values_of ds rest; mret (a :: vals)
  end.

(** The variables named as pixel corners of one axis. *)
Definition corner_vars (axis : string) (ds : XrDataset) : list string :=
  sorted (filter (λ v, contains ("pixel_corner_" +:+ axis +:+ "_Corner") v = true) ds.*1).

(** The [try] branch of the coordinate search: the arrays of the variables
    [find_lat_lon] names. *)
Definition direct_coordinates (ds : XrDataset) : M (ndarray * ndarray) :=
  names ← find_lat_lon ds;
  lat_arr ← values_of ds names.1;
  lon_arr ← values_of ds names.2;
  mret (lat_arr, lon_arr).

(** The [except ValueError] branch: the mean of four corner arrays per
    axis. *)
Definition corner_coordinates (ds : XrDataset) : M (ndarray * ndarray) :=
  let corner_lat_vars := corner_vars "latitude" ds in
  let corner_lon_vars := corner_vars "longitude" ds in
  if Nat.eqb (length corner_lat_vars) 4 && Nat.eqb (length corner_lon_vars) 4 then
    lat_corners ← all_values_of ds corner_lat_vars ≫= np_array;
    lon_corners ← all_values_of ds corner_lon_vars ≫= np_array;
    mret (np_nanmean_axis0 lat_corners, np_nanmean_axis0 lon_corners)
  else raise ValueError.

Definition bbox_of_arrays (lat_arr lon_arr : ndarray) : M BBox :=
  a ← np_nanmin lat_arr;
  b ← np_nanmax lat_arr;
  c ← np_nanmin lon_arr;
  d ← np_nanmax lon_arr;
  mret {| lat_min := Some a; lat_max := Some b; lon_min := Some c; lon_max := Some d |}.

(** The body of the inner [try] of [extract_metadata], once xarray has
    opened the file. *)
Definition xarray_bbox (ds_xr : XrDataset) : M BBox :=
  arrs ← except_ValueError (direct_coordinates ds_xr) (corner_coordinates ds_xr);
  bbox_of_arrays arrs.1 arrs.2.

(** [for name in coord_names: if name in grp.variables: return ...] *)
Fixpoint first_present (vars : list (string * ndarray)) (coord_names : list string)
  : option ndarray :=
  match coord_names with
  | [] => None
  | name :: rest =>
      match lookup_variable vars name with
      | Some a => Some a
      | None => first_present vars rest
      end
  end.

(** [find_coord_array] of [extract_bbox_fallback]: the group's own
    variables first, then its subgroups, depth first. *)
Fixpoint find_coord_array (grp : Group) (coord_names : list string) : option ndarray :=
  match grp with
  | mk_group vars subs =>
      match first_present vars coord_names with
      | Some a => Some a
      | None =>
          (fix in_subgroups (subs : list (string * Group)) : option ndarray :=
             match subs with
             | [] => None
             | (_, subgrp) :: rest =>
                 match find_coord_array subgrp coord_names with
                 | Some a => Some a
                 | None => in_subgroups rest
                 end
             end) subs
      end
  end.

Definition lat_names : list string := ["lat"; "latitude"; "LATITUDE"; "LAT"].
Definition lon_names : list string := ["lon"; "longitude"; "LONGITUDE"; "LON"].

Definition extract_bbox_fallback (nc : Dataset) : M BBox :=
  match find_coord_array (root nc) lat_names, find_coord_array (root nc) lon_names with
  | Some lat_arr, Some lon_arr => bbox_of_arrays lat_arr lon_arr
  | _, _ => mret no_bbox
  end.

(** ** Variables of a file *)

Fixpoint walk_all_variables (nc_group : Group) : gset string :=
  match nc_group with
  | mk_group vars subs =>
      list_to_set vars.*1 ∪
      (fix in_subgroups (subs : list (string * Group)) : gset string :=
         match subs with
         | [] => ∅
         | (_, subgroup) :: rest => walk_all_variables subgroup ∪ in_subgroups rest
         end) subs
  end.

(** ** The extractor *)

(** [a or b] on strings. *)
Definition str_or (a b : string) : string :=
  match a with
  | EmptyString => b
  | _ => a
  end.

Definition is_empty (s : string) : bool :=
  match s with
  | EmptyString => true
  | _ => false
  end.

(** [nc_path.stat().st_size] *)
Definition stat (fs : FS) (nc_path : string) : M Z :=
  emit (EvStat nc_path);;
  match fs !! nc_path with
  | Some f => mret (st_size f)
  | None => raise FileNotFoundError
  end.

(** Opening the file with one of its readers. *)
Definition open_with {A} (fs : FS) (ev : Event) (view : NcFile → exn + A)
    (nc_path : string) : M A :=
  emit ev;;
  match fs !! nc_path with
  | Some f => lift (view f)
  | None => raise FileNotFoundError
  end.

Definition open_xarray (fs : FS) (nc_path : string) : M XrDataset :=
  open_with fs (EvOpenXarray nc_path) xr_view nc_path.

Definition open_dataset (fs : FS) (nc_path : string) : M Dataset :=
  open_with fs (EvOpenDataset nc_path) nc_view nc_path.

Definition read_head (fs : FS) (nc_path : string) : M (list Byte.byte) :=
  open_with fs (EvOpenBinary nc_path) head8k nc_path.

(** The body of the first [try] of [extract_metadata]: the coordinates as
    xarray shows them, or else the pixel corners. *)
Definition xarray_strategies (fs : FS) (nc_path : string) : M BBox :=
  ds_xr ← open_xarray fs nc_path; xarray_bbox ds_xr.

(** Its [except Exception]: the search through the groups of the netCDF4
    dataset. *)
Definition raw_strategy (fs : FS) (nc_path : string) : M BBox :=
  nc ← open_dataset fs nc_path; extract_bbox_fallback nc.

Definition geospatial (fs : FS) (nc_path : string) : M BBox :=
  try_except (xarray_strategies fs nc_path) (λ _, raw_strategy fs nc_path).

Section Extractor.
Context {du : Dateutil} {xx : Xxhash}.

(** Start and end of the product: the attributes, then the file name for
    what the attributes left empty. *)
Definition temporal (nc : Dataset) (nc_path : string) : string * string :=
  let raw_start := str_or (getattr nc "start_time") "" in
  let raw_end := getattr nc "stop_time" in
  let datetime_start := normalize_datetime raw_start in
  let datetime_end := normalize_datetime raw_end in
  if is_empty datetime_start || is_empty datetime_end then
    let '(dt1, dt2) := extract_times_from_filename nc_path in
    (str_or datetime_start dt1, str_or datetime_end dt2)
  else (datetime_start, datetime_end).

(** [[v for v in vars_in_nc if v in VARIABLES_ALIAS]] *)
Definition matched_vars (vars_in_nc : gset string) : list string :=
  filter (λ v, is_Some (VARIABLES_ALIAS !! v)) (elements vars_in_nc).

(** [f"{alias_legible} – {vname}"] *)
Definition label (vname : string) : string :=
  default "" (VARIABLES_ALIAS !! vname) +:+ " – " +:+ vname.

(** [platform], or the first word of [source]. *)
Definition satellite_of (nc : Dataset) : string :=
  str_or (getattr nc "platform") (first_token " " (getattr nc "source")).

(** The tuple built for one matched variable. *)
Definition meta_of (nc_path : string) (nc : Dataset) (size_bytes : Z)
    (checksum : string) (vname : string) : Meta :=
  {| file_path := nc_path;
     product_name := label vname;
     datetime_start := (temporal nc nc_path).1;
     datetime_end := (temporal nc nc_path).2;
     satellite := satellite_of nc;
     instrument := getattr nc "instrument";
     product_type := vname;
     size_bytes := size_bytes;
     checksum := checksum |}.

Definition extract_metadata (fs : FS) (nc_path : string) : M Outcome :=
  size ← stat fs nc_path;
  if MAX_SIZE_MB * 1024 * 1024 <? size then
    size' ← stat fs nc_path;
    emit (EvPrint (TooLarge (path_name nc_path) size'));;
    mret (Records [] [])
  else
    try_except
      (bbox ← geospatial fs nc_path;
       size_bytes ← stat fs nc_path;
       head ← read_head fs nc_path;
       let checksum := xxh64_hexdigest head in
       nc ← open_dataset fs nc_path;
       let vars_in_nc := walk_all_variables (root nc) in
       let matched := matched_vars vars_in_nc in
       match matched with
       | [] => mret (Records [] [])
       | _ =>
           mret (Records (map (meta_of nc_path nc size_bytes checksum) matched)
                         (map (λ _, bbox) matched))
       end)
      (λ exc, mret (Failure exc)).

End Extractor.

(** ** The store *)

(** Modelled from the spec: the schema ([backend/db/schema.sql]) is not
    among the sources.  A row of [products] has a generated identifier and
    is unique for its [(file_path, product_type)]; a row of [bbox_index] is
    keyed on the identifier of its product.  Identifiers are handed out in
    increasing order. *)
Record Store := {
  products : gmap (string * string) (Z * Meta);
  bbox_index : gmap Z BBox;
  next_id : Z
}.

Definition empty_store : Store :=
  {| products := ∅; bbox_index := ∅; next_id := 1 |}.

(** Modelled from the spec: whatever else the schema asks of a row of
    [products] (a column that may not be null, a check), which an
    [INSERT OR IGNORE] answers by leaving the row out.  [accepts] tells
    the rows that pass. *)
Class Schema := {
  accepts : Meta → bool
}.

Definition key_of (meta : Meta) : string * string :=
  (file_path meta, product_type meta).

Section Loader.
Context {sch : Schema}.

(** Modelled from the spec: [cur.execute(ins_product, meta)], an
    insert-or-ignore keyed on [(file_path, product_type)]. *)
Definition exec_ins_product (meta : Meta) (st : Store) : Store :=
  match products st !! key_of meta with
  | Some _ => st
  | None =>
      if accepts meta then
        {| products := <[key_of meta := (next_id st, meta)]> (products st);
           bbox_index := bbox_index st;
           next_id := next_id st + 1 |}
      else st
  end.

(** Modelled from the spec: the [SELECT id FROM products WHERE file_path = ?
    AND product_type = ?] and its [fetchone]. *)
Definition select_id (k : string * string) (st : Store) : option Z :=
  fst <$> products st !! k.

(** Modelled from the spec: [cur.execute(ins_bbox, ...)], an
    insert-or-ignore keyed on the product identifier. *)
Definition exec_ins_bbox (prod_id : Z) (bbox : BBox) (st : Store) : Store :=
  match bbox_index st !! prod_id with
  | Some _ => st
  | None =>
      {| products := products st;
         bbox_index := <[prod_id := bbox]> (bbox_index st);
         next_id := next_id st |}
  end.

(** [_flush]: the loop runs until [metas] is empty; what is left of
    [bboxes] is returned with the store.  [popleft] on an empty deque
    raises [IndexError]. *)
Fixpoint _flush (metas : list Meta) (bboxes : list BBox) (st : Store)
  : M (list BBox * Store) :=
  match metas with
  | [] => mret (bboxes, st)
  | meta :: metas' =>
      let st1 := exec_ins_product meta st in
      match select_id (file_path meta, product_type meta) st1 with
      | None => _flush metas' bboxes st1
      | Some prod_id =>
          match bboxes with
          | [] => raise IndexError
          | bbox :: bboxes' => _flush metas' bboxes' (exec_ins_bbox prod_id bbox st1)
          end
      end
  end.

End Loader.

(** ** The orchestrator *)

(** The stems [ingest] leaves out.  The fourth entry is the juxtaposition
    of two literals in the source. *)
Definition BLACKLIST : list string := [
  "geodetic_in"; "FRP_SWIR500m"; "time_cordinates"; "geo:trsp"; "w_aer";
  "tie_geo_coordinates"; "tie_meteo"; "wqsf"; "tsm_nn"
].

(** [all_nc], from what [DATA_DIR.rglob("*.nc")] yields. *)
Definition all_nc (found : list string) : list string :=
  filter (λ p, str_in (path_stem p) BLACKLIST = false) found.

Definition BATCH_SIZE : nat := 500.

Section Orchestrator.
Context {du : Dateutil} {xx : Xxhash} {sch : Schema}.

(** The two deques and the store behind the cursor. *)
Definition LoaderState : Type := list Meta * list BBox * Store.

(** One turn of the loop over [as_completed(futures)], for the future of
    [nc_path]: [fut.result()] hands over what the worker returned, or
    raises what it raised. *)
Definition ingest_step (fs : FS) (state : LoaderState) (nc_path : string)
  : M LoaderState :=
  let '(batch_meta, batch_bbox, st) := state in
  res ← extract_metadata fs nc_path;
  match res with
  | Failure exc =>
      emit (EvPrint (FileFailed (path_name nc_path) exc));;
      mret state
  | Records metas bboxes =>
      let pairs := zip metas bboxes in
      let batch_meta := batch_meta ++ pairs.*1 in
      let batch_bbox := batch_bbox ++ pairs.*2 in
      if (BATCH_SIZE <=? length batch_meta)%nat then
        flushed ← _flush batch_meta batch_bbox st;
        mret ([], flushed.1, flushed.2)
      else mret (batch_meta, batch_bbox, st)
  end.

Fixpoint ingest_loop (fs : FS) (state : LoaderState) (arrival : list string)
  : M LoaderState :=
  match arrival with
  | [] => mret state
  | nc_path :: rest =>
      state' ← ingest_step fs state nc_path;
      ingest_loop fs state' rest
  end.

(** [ingest], from the files in the order their futures complete (a
    permutation of [all_nc]), to the store it commits.  An exception leaves
    the run before [conn.commit()]: nothing of the run is kept.  The lines
    that open and close the run on standard output are left out of the
    trace. *)
Definition ingest (fs : FS) (arrival : list string) (st : Store) : M Store :=
  state ← ingest_loop fs ([], [], st) arrival;
  flushed ← _flush state.1.1 state.1.2 state.2;
  mret flushed.2.

(** The store after a run. *)
Definition store_after (st : Store) (run : M Store) : Store :=
  match result run with
  | inr st' => st'
  | inl _ => st
  end.

End Orchestrator.

(** ** The desktop application ([gui/main.py]) *)

(** [reset_database]: the two [DELETE] without a [WHERE], committed.
    Whether identifiers start again from 1 afterwards is the schema's
    (an [AUTOINCREMENT] key goes on counting); the counter is kept here, and
    what later runs put in the catalogue does not depend on it.  The branch
    that returns the text of an [sqlite3] exception has no counterpart: the
    store is always at hand. *)
Definition reset_database (st : Store) : Store :=
  {| products := ∅; bbox_index := ∅; next_id := next_id st |}.

(** What [Main._on_visualize] and [Main._on_visualize_asturias] do to the
    store for an item whose file is gone: [DELETE FROM products WHERE id = ?]
    and [DELETE FROM bbox_index WHERE product_id = ?]. *)
Definition delete_item (item_id : Z) (st : Store) : Store :=
  {| products := filter (λ kr, kr.2.1 ≠ item_id) (products st);
     bbox_index := delete item_id (bbox_index st);
     next_id := next_id st |}.

(** [grp.variables] *)
Definition group_variables (grp : Group) : list (string * ndarray) :=
  match grp with mk_group vars _ => vars end.

(** [walk_groups]: the group, then the groups below it, depth first, in
    the order the generator yields them. *)
Fixpoint walk_groups (grp : Group) : list Group :=
  match grp with
  | mk_group vars subs =>
      grp ::
      (fix in_subgroups (subs : list (string * Group)) : list Group :=
         match subs with
         | [] => []
         | (_, g) :: rest => walk_groups g ++ in_subgroups rest
         end) subs
  end.

(** [find_var]: the first variable, in that order, whose name is [name]
    up to case; [KeyError] when there is none. *)
Definition find_var (grp : Group) (name : string) : M ndarray :=
  let tgt := lower name in
  match
    head (filter (λ nv, String.eqb (lower nv.1) tgt = true)
                 (walk_groups grp ≫= group_variables))
  with
  | Some (_, var) => mret var
  | None => raise KeyError
  end.

(** ** The service ([backend/api/main.py]) *)

(** [float(s)] of Python; [None] stands for its [ValueError]. *)
Class PyFloat := {
  float_of_str : string → option float
}.

(** [s.split(sep)] for a one-character separator. *)
Fixpoint split (sep : ascii) (s : string) : list string :=
  match s with
  | EmptyString => [EmptyString]
  | String c s' =>
      if Ascii.eqb c sep then EmptyString :: split sep s'
      else match split sep s' with
           | [] => [String c EmptyString]
           | w :: ws => String c w :: ws
           end
  end.

(** An [HTTPException], by its status code. *)
Definition HTTPException : Type := Z.

Module api.
(** What the two endpoints select for one product: the columns of
    [products] but the checksum, and the four of [bbox_index], each [NULL]
    when the left join finds no row. *)
Record Item := {
  id : Z;
  file_path : string;
  product_name : string;
  datetime_start : string;
  datetime_end : string;
  satellite : string;
  instrument : string;
  product_type : string;
  size_bytes : Z;
  lat_min : option float;
  lat_max : option float;
  lon_min : option float;
  lon_max : option float
}.
End api.

(** A REAL column as it is read back: SQLite stores a NaN as [NULL]. *)
Definition sql_real (x : option float) : option float :=
  match x with
  | Some NaN => None
  | _ => x
  end.

(** The row of the [SELECT ... FROM products AS p LEFT JOIN bbox_index AS b
    ON b.product_id = p.id] for one product. *)
Definition joined_row (st : Store) (item_id : Z) (meta : Meta) : api.Item :=
  let b := default no_bbox (bbox_index st !! item_id) in
  {| api.id := item_id;
     api.file_path := file_path meta;
     api.product_name := product_name meta;
     api.datetime_start := datetime_start meta;
     api.datetime_end := datetime_end meta;
     api.satellite := satellite meta;
     api.instrument := instrument meta;
     api.product_type := product_type meta;
     api.size_bytes := size_bytes meta;
     api.lat_min := sql_real (lat_min b); api.lat_max := sql_real (lat_max b);
     api.lon_min := sql_real (lon_min b); api.lon_max := sql_real (lon_max b) |}.

(** SQL [x <= y] between REAL values as a [WHERE] reads it: a row passes
    on true only, and a comparison with [NULL] is not true. *)
Definition sql_le (x y : option float) : bool :=
  match x, y with
  | Some a, Some b => float_leb a b
  | _, _ => false
  end.

(** The subquery of [list_items] on one row of [bbox_index]: [lat_min <= ?
    AND lat_max >= ? AND lon_min <= ? AND lon_max >= ?], its parameters in
    the order they are bound. *)
Definition subq (params : list float) (b : BBox) : bool :=
  match params with
  | [p1; p2; p3; p4] =>
      sql_le (lat_min b) (Some p1) && sql_le (Some p2) (lat_max b) &&
      sql_le (lon_min b) (Some p3) && sql_le (Some p4) (lon_max b)
  | _ => false
  end.

Section Service.
Context {pf : PyFloat}.

(** [_parse_bbox]: four numbers between commas, read as
    [latmin,lonmin,latmax,lonmax] and returned latitudes first; anything
    else (another count of parts, a part that is no number) is the
    [ValueError] turned into a 400. *)
Definition _parse_bbox (bbox : string) : HTTPException + (float * float * float * float) :=
  match float_of_str <$> split "," bbox with
  | [Some lat_min; Some lon_min; Some lat_max; Some lon_max] =>
      inr (lat_min, lat_max, lon_min, lon_max)
  | _ => inl 400
  end.

(** The [WHERE] clause [list_items] builds, on one row of [products]: the
    conditions of the filters that are given and not empty, joined by
    [AND].  The order of the rows and the page that [LIMIT] and [OFFSET]
    cut are not modelled. *)
Definition list_items_where (start end' satellite' product_type' bbox : option string)
    (st : Store) (item_id : Z) (meta : Meta) : HTTPException + bool :=
  let by_columns :=
    (if truthy start then String.leb (default "" start) (datetime_start meta) else true) &&
    (if truthy end' then String.leb (datetime_end meta) (default "" end') else true) &&
    (if truthy satellite' then String.eqb (satellite meta) (default "" satellite') else true) &&
    (if truthy product_type'
     then String.eqb (product_type meta) (default "" product_type') else true) in
  if truthy bbox then
    match _parse_bbox (default "" bbox) with
    | inl err => inl err
    | inr (lat_min, lat_max, lon_min, lon_max) =>
        inr (by_columns &&
             match bbox_index st !! item_id with
             | Some b => subq [lat_max; lat_min; lon_max; lon_min] b
             | None => false
             end)
    end
  else inr by_columns.

End Service.

(** [get_item]: the row of the product of that identifier, or 404. *)
Definition get_item (item_id : Z) (st : Store) : HTTPException + api.Item :=
  match filter (λ kr, kr.2.1 = item_id) (map_to_list (products st)) with
  | (_, (_, meta)) :: _ => inr (joined_row st item_id meta)
  | [] => inl 404
  end.

(** ** Instances for the examples *)

Fixpoint decimal (s : string) (acc : Z) : Z :=
  match s with
  | EmptyString => acc
  | String c s' => decimal s' (10 * acc + (Z.of_nat (nat_of_ascii c) - 48))
  end.

Definition field (s : string) (i n : nat) : Z :=
  decimal (String.substring i n s) 0.

(** An [isoparse] for the two shapes the pipeline itself writes and looks
    for: [YYYYMMDDTHHMMSS] and [YYYY-MM-DDTHH:MM:SS]. *)
Definition isoparse_stamps (s : string) : option datetime :=
  if bool_decide (match_here stamp_pattern s = Some s) then
    datetime_of (field s 0 4) (field s 4 2) (field s 6 2)
                (field s 9 2) (field s 11 2) (field s 13 2)
  else if canonical s then
    datetime_of (field s 0 4) (field s 5 2) (field s 8 2)
                (field s 11 2) (field s 14 2) (field s 17 2)
  else None.

Definition dateutil_stamps : Dateutil :=
  {| isoparse := isoparse_stamps; parse := λ _, None |}.

(** A digest for the examples: the xxh64 of the empty input, whatever the
    input. *)
Definition xxhash_fixed : Xxhash :=
  {| xxh64_hexdigest := λ _, "ef46db3751d8e999" |}.

(** A schema with nothing beyond the uniqueness keys. *)
Definition schema_plain : Schema :=
  {| accepts := λ _, true |}.

(** A schema whose [products] table also checks that [datetime_start] is
    not empty. *)
Definition schema_dated : Schema :=
  {| accepts := λ meta, negb (is_empty (datetime_start meta)) |}.

(** A [float] for the examples: decimal digits after an optional minus
    sign. *)
Definition float_of_digits (s : string) : option float :=
  let digits (t : string) : option Z :=
    match t with
    | EmptyString => None
    | _ => if forallb is_digit (list_ascii_of_string t) then Some (decimal t 0) else None
    end in
  match s with
  | String "-" t => (λ n, Finite (inject_Z (- n))) <$> digits t
  | _ => (λ n, Finite (inject_Z n)) <$> digits s
  end.

Definition pyfloat_digits : PyFloat :=
  {| float_of_str := float_of_digits |}.

(** * Vocabulary of the properties *)

(** ** Traces *)

(** No line is printed. *)
Definition silent (t : list Event) : Prop :=
  ∀ line, EvPrint line ∉ t.

(** None of the readers opens the file. *)
Definition never_opened (t : list Event) : Prop :=
  ∀ ev, ev ∈ t → match ev with
                 | EvOpenXarray _ | EvOpenDataset _ | EvOpenBinary _ => False
                 | _ => True
                 end.

(** ** File names and groups *)

(** [g] is fifteen characters of the shape [<8 digits>T<6 digits>]. *)
Definition is_stamp (g : string) : Prop :=
  match_here stamp_pattern g = Some g.

(** [s] contains [g1], an underscore and [g2], both of the shape above. *)
Definition has_stamp_pair (s g1 g2 : string) : Prop :=
  ∃ pre post, s = pre +:+ g1 +:+ "_" +:+ g2 +:+ post ∧ is_stamp g1 ∧ is_stamp g2.

(** A variable of an xarray dataset that nothing marks as a latitude: not
    its [standard_name], not its name. *)
Definition names_no_latitude (nv : string * XrVariable) : Prop :=
  str_in (lower (standard_name nv.2)) ["latitude"; "grid_latitude"] = false ∧
  nv.1 ≠ "nav_lat" ∧
  coord_regex "lat" "latitude" nv.1 = false.

(** Variable [v] is declared in the group or in a group nested in it. *)
Inductive declares : Group → string → Prop :=
| declares_here vars subs v a :
    (v, a) ∈ vars → declares (mk_group vars subs) v
| declares_below vars subs name sub v :
    (name, sub) ∈ subs → declares sub v → declares (mk_group vars subs) v.

(** ** Extrema *)

(** [x] is the least of the values of [a] that are not NaN, or NaN when
    [a] has no other value. *)
Definition least_ignoring_nan (a : ndarray) (x : float) : Prop :=
  (x = NaN ∧ ∀ y, y ∈ a → y = NaN) ∨
  (x ∈ a ∧ x ≠ NaN ∧ ∀ y, y ∈ a → y ≠ NaN → float_leb x y = true).

(** [x] is the greatest of the values of [a] that are not NaN, or NaN when
    [a] has no other value. *)
Definition greatest_ignoring_nan (a : ndarray) (x : float) : Prop :=
  (x = NaN ∧ ∀ y, y ∈ a → y = NaN) ∨
  (x ∈ a ∧ x ≠ NaN ∧ ∀ y, y ∈ a → y ≠ NaN → float_leb y x = true).

(** ** The store *)

(** The rows of the store as a reader sees them through the join of the
    two tables: for the key of each product, its columns and its bounding
    box if it has one.  Identifiers do not show. *)
Definition catalogue (st : Store) : gmap (string * string) (Meta * option BBox) :=
  (λ r, (r.2, bbox_index st !! r.1)) <$> products st.

(** Identifiers are below the next one to hand out, and no two products
    share one. *)
Definition wf (st : Store) : Prop :=
  (∀ k i m, products st !! k = Some (i, m) → i < next_id st) ∧
  (∀ k1 k2 i m1 m2,
     products st !! k1 = Some (i, m1) → products st !! k2 = Some (i, m2) → k1 = k2) ∧
  (∀ i, is_Some (bbox_index st !! i) → i < next_id st).

(** On the catalogue, loading a record with a bounding box: a new record
    comes with the box, a known one without box takes it, and a known one
    with a box stays. *)
Definition record_pair (c : gmap (string * string) (Meta * option BBox))
    (mb : Meta * BBox) : gmap (string * string) (Meta * option BBox) :=
  match c !! key_of mb.1 with
  | None => <[key_of mb.1 := (mb.1, Some mb.2)]> c
  | Some (m0, None) => <[key_of mb.1 := (m0, Some mb.2)]> c
  | Some (_, Some _) => c
  end.

(** The product of key [k], if there is one, has its row in
    [bbox_index]. *)
Definition covered (st : Store) (k : string * string) : Prop :=
  ∀ i m, products st !! k = Some (i, m) → is_Some (bbox_index st !! i).


(** Every row of [bbox_index] is the row of a product. *)
Definition referenced (st : Store) : Prop :=
  ∀ i, is_Some (bbox_index st !! i) → ∃ k m, products st !! k = Some (i, m).

(** ** Records on their way to the store *)

Section Vocabulary.
Context {du : Dateutil} {xx : Xxhash} {sch : Schema}.

(** The records of a file, from what its readers give. *)
Definition records_of (nc_path : string) (f : NcFile) (nc : Dataset)
    (head : list Byte.byte) (bbox : BBox) : Outcome :=
  let matched := matched_vars (walk_all_variables (root nc)) in
  Records (map (meta_of nc_path nc (st_size f) (xxh64_hexdigest head)) matched)
          (map (λ _, bbox) matched).

(** The records a file sends to the loader. *)
Definition pairs_of (fs : FS) (nc_path : string) : list (Meta * BBox) :=
  match result (extract_metadata fs nc_path) with
  | inr (Records metas bboxes) => zip metas bboxes
  | _ => []
  end.

(** The records of a run, in the order they reach the loader. *)
Definition stream (fs : FS) (arrival : list string) : list (Meta * BBox) :=
  arrival ≫= pairs_of fs.

(** Loading [meta] again changes nothing: its product is there unless the
    schema refuses it, and the product of its key has its bounding box. *)
Definition saturated (st : Store) (meta : Meta) : Prop :=
  (accepts meta = true → is_Some (products st !! key_of meta)) ∧
  covered st (key_of meta).

(** One turn of the loop of [_flush] when the record is given its own
    bounding box. *)
Definition load_pair (st : Store) (mb : Meta * BBox) : Store :=
  let st1 := exec_ins_product mb.1 st in
  match select_id (key_of mb.1) st1 with
  | Some prod_id => exec_ins_bbox prod_id mb.2 st1
  | None => st1
  end.

(** The select after the insert will find a row. *)
Definition resolved (st : Store) (meta : Meta) : Prop :=
  accepts meta = true ∨ is_Some (products st !! key_of meta).

End Vocabulary.

(** ** Bounding boxes, coordinate names, time order *)

(** [lo] is not above [hi]; both are NaN when the array they are taken
    from has no other value. *)
Definition in_order (lo hi : float) : Prop :=
  (lo = NaN ∧ hi = NaN) ∨ float_leb lo hi = true.

(** Four [None], or four floats, the least not above the greatest on each
    axis. *)
Definition box_in_order (b : BBox) : Prop :=
  b = no_bbox ∨
  ∃ lat_lo lat_hi lon_lo lon_hi,
    b = {| lat_min := Some lat_lo; lat_max := Some lat_hi;
           lon_min := Some lon_lo; lon_max := Some lon_hi |} ∧
    in_order lat_lo lat_hi ∧ in_order lon_lo lon_hi.

(** The [standard_name] of the variable, in lower case, is one of
    [tags]. *)
Definition tagged (tags : list string) (nv : string * XrVariable) : bool :=
  str_in (lower (standard_name nv.2)) tags.

(** The name of the last variable of the dataset carrying one of
    [tags]. *)
Fixpoint last_tagged (tags : list string) (ds : XrDataset) : option string :=
  match ds with
  | [] => None
  | nv :: rest =>
      match last_tagged tags rest with
      | Some n => Some n
      | None => if tagged tags nv then Some nv.1 else None
      end
  end.

(** Nothing marks the variable as a coordinate of one axis: not its
    [standard_name], not its name. *)
Definition unmarked (tags : list string) (nav short long : string)
    (nv : string * XrVariable) : Prop :=
  tagged tags nv = false ∧ nv.1 ≠ nav ∧ coord_regex short long nv.1 = false.



(** ** The service *)

Definition finite_box (a1 a2 c1 c2 : Q) : BBox :=
  {| lat_min := Some (Finite a1); lat_max := Some (Finite a2);
     lon_min := Some (Finite c1); lon_max := Some (Finite c2) |}.

(** The point of latitude [x] and longitude [y] is in the rectangle of
    latitudes [a1] to [a2] and longitudes [c1] to [c2]. *)
Definition in_rectangle (a1 a2 c1 c2 : Q) (x y : Q) : Prop :=
  (a1 <= x)%Q ∧ (x <= a2)%Q ∧ (c1 <= y)%Q ∧ (y <= c2)%Q.

(** ** The events of a run *)

Section Events.
Context {du : Dateutil} {xx : Xxhash}.


End Events.

(** ** Statements read to the letter *)

Section ToTheLetter.
Context {du : Dateutil} {xx : Xxhash}.

(** C5 to the letter: nothing returned, nothing opened, nothing printed. *)
Definition skips_silently (fs : FS) (p : string) : Prop :=
  result (extract_metadata fs p) = inr (Records [] []) ∧
  never_opened (trace (extract_metadata fs p)) ∧
  silent (trace (extract_metadata fs p)).

End ToTheLetter.

(** C8 to the letter: values that are not finite are left out, of the
    means and of the extrema. *)
Definition finite_values (a : list float) : list float :=
  filter (λ x, is_finite x = true) a.

Definition extrema_of_finite_means (corners : list ndarray) : M (float * float) :=
  let cols := columns (length (hd [] corners)) corners in
  let means := finite_values (map (λ col, nanmean_column (finite_values col)) cols) in
  lo ← np_nanmin means; hi ← np_nanmax means; mret (lo, hi).

Definition corner_bbox_ignoring_nonfinite (lat_corners lon_corners : list ndarray) : M BBox :=
  lat ← extrema_of_finite_means lat_corners;
  lon ← extrema_of_finite_means lon_corners;
  mret {| lat_min := Some lat.1; lat_max := Some lat.2;
          lon_min := Some lon.1; lon_max := Some lon.2 |}.

(** C9 to the letter: the two tables hold the same rows. *)
Definition same_rows (st1 st2 : Store) : Prop :=
  products st1 = products st2 ∧ bbox_index st1 = bbox_index st2.

(** * Example files *)

Definition array_of (l : list Z) : ndarray := map (λ z, Finite (inject_Z z)) l.

Definition box_of (a b c d : Z) : BBox :=
  {| lat_min := Some (Finite (inject_Z a)); lat_max := Some (Finite (inject_Z b));
     lon_min := Some (Finite (inject_Z c)); lon_max := Some (Finite (inject_Z d)) |}.

(** A product of two matched variables, with coordinates and times. *)
Definition file_A : NcFile :=
  {| st_size := 50 * 1024 * 1024;
     head8k := inr [];
     xr_view := inr [
       ("lat", {| standard_name := "latitude"; xr_values := array_of [35; 45] |});
       ("lon", {| standard_name := "longitude"; xr_values := array_of [-10; 4] |});
       ("sst", {| standard_name := "sea_surface_temperature"; xr_values := array_of [290; 291] |});
       ("wind_speed", {| standard_name := ""; xr_values := array_of [3; 7] |})];
     nc_view := inr
       {| root := mk_group [("lat", array_of [35; 45]); ("lon", array_of [-10; 4]);
                            ("sst", array_of [290; 291]); ("wind_speed", array_of [3; 7])] [];
          ncattrs := {[ "start_time" := "2023-01-02T03:04:05";
                        "stop_time" := "2023-01-02T04:05:06";
                        "platform" := "S3A"; "instrument" := "SLSTR" ]} |} |}.

(** A well-formed file with no variable of the alias table. *)
Definition file_B : NcFile :=
  {| st_size := 10 * 1024 * 1024;
     head8k := inr [];
     xr_view := inr [("radiance", {| standard_name := ""; xr_values := array_of [1; 2] |})];
     nc_view := inr {| root := mk_group [("radiance", array_of [1; 2])] []; ncattrs := ∅ |} |}.

(** A file over the size guard. *)
Definition file_C : NcFile :=
  {| st_size := 800 * 1024 * 1024;
     head8k := inr [];
     xr_view := inr [];
     nc_view := inr {| root := mk_group [("sst", array_of [290])] []; ncattrs := ∅ |} |}.

(** A file without coordinates, that xarray does not open; its times are
    in its name. *)
Definition file_D : NcFile :=
  {| st_size := 4096;
     head8k := inr [];
     xr_view := inl OSError;
     nc_view := inr
       {| root := mk_group [] [("PRODUCT", mk_group [("sst", array_of [280; 281])] [])];
          ncattrs := {[ "source" := "Metop-B AVHRR" ]} |} |}.

(** A file with coordinates and no time, in its attributes or its name. *)
Definition file_E : NcFile :=
  {| st_size := 2048;
     head8k := inr [];
     xr_view := inr [
       ("nav_lat", {| standard_name := ""; xr_values := array_of [60; 70] |});
       ("nav_lon", {| standard_name := ""; xr_values := array_of [20; 30] |});
       ("sst", {| standard_name := ""; xr_values := array_of [275] |})];
     nc_view := inr
       {| root := mk_group [("nav_lat", array_of [60; 70]); ("nav_lon", array_of [20; 30]);
                            ("sst", array_of [275])] [];
          ncattrs := ∅ |} |}.

Definition corner_names (axis : string) : list string :=
  map (λ n, "pixel_corner_" +:+ axis +:+ "_Corner" +:+ n) ["1"; "2"; "3"; "4"].

(** Four pixel corners per axis over two cells; one latitude corner of the
    second cell is infinite. *)
Definition xr_F : XrDataset :=
  zip (corner_names "latitude")
      (map (λ a, {| standard_name := ""; xr_values := a |})
           [[Finite 1; PosInf]; array_of [1; 2]; array_of [1; 2]; array_of [1; 2]]) ++
  zip (corner_names "longitude")
      (map (λ a, {| standard_name := ""; xr_values := array_of a |})
           [[5; 6]; [5; 6]; [7; 8]; [7; 8]]) ++
  [("ozone_profile", {| standard_name := ""; xr_values := array_of [300; 301] |})].

Definition file_F : NcFile :=
  {| st_size := 8192;
     head8k := inr [];
     xr_view := inr xr_F;
     nc_view := inr
       {| root := mk_group (map (λ nv, (nv.1, xr_values nv.2)) xr_F) [];
          ncattrs := ∅ |} |}.

Definition path_A : string := "/data/A.nc".
Definition path_B : string := "/data/B.nc".
Definition path_C : string := "/data/C.nc".
Definition path_D : string := "/data/D_20230102T030405_20230102T040506.nc".
Definition path_E : string := "/data/E.nc".
Definition path_F : string := "/data/F.nc".

Definition example_fs : FS :=
  list_to_map [(path_A, file_A); (path_B, file_B); (path_C, file_C);
               (path_D, file_D); (path_E, file_E); (path_F, file_F)].

(** The records of the example files. *)
Definition records_of_example (p : string) : list Meta * list BBox :=
  match result (@extract_metadata dateutil_stamps xxhash_fixed example_fs p) with
  | inr (Records metas bboxes) => (metas, bboxes)
  | _ => ([], [])
  end.

Definition metas_A : list Meta := Eval vm_compute in (records_of_example path_A).1.
Definition bboxes_A : list BBox := Eval vm_compute in (records_of_example path_A).2.
Definition metas_E : list Meta := Eval vm_compute in (records_of_example path_E).1.

Definition meta_A_sst : Meta :=
  {| file_path := path_A; product_name := "Sea Surface Temperature – sst";
     datetime_start := "2023-01-02T03:04:05"; datetime_end := "2023-01-02T04:05:06";
     satellite := "S3A"; instrument := "SLSTR"; product_type := "sst";
     size_bytes := 52428800; checksum := "ef46db3751d8e999" |}.

Definition meta_D_sst : Meta :=
  {| file_path := path_D; product_name := "Sea Surface Temperature – sst";
     datetime_start := "2023-01-02T03:04:05"; datetime_end := "2023-01-02T04:05:06";
     satellite := "Metop-B"; instrument := ""; product_type := "sst";
     size_bytes := 4096; checksum := "ef46db3751d8e999" |}.


Definition nc_D : Dataset :=
  match nc_view file_D with inr nc => nc | inl _ => {| root := mk_group [] []; ncattrs := ∅ |} end.

(** A run over the example files, from the empty store. *)
Definition example_run (schema : Schema) (arrival : list string) : M Store :=
  @ingest dateutil_stamps xxhash_fixed schema example_fs arrival empty_store.

Definition example_store (schema : Schema) (arrival : list string) : Store :=
  store_after empty_store (example_run schema arrival).

Definition lat_corners_F : list ndarray :=
  [[Finite 1; PosInf]; array_of [1; 2]; array_of [1; 2]; array_of [1; 2]].

Definition lon_corners_F : list ndarray :=
  [array_of [5; 6]; array_of [5; 6]; array_of [7; 8]; array_of [7; 8]].





Definition xr_of (f : NcFile) : XrDataset :=
  match xr_view f with inr ds => ds | inl _ => [] end.

Definition meta_E_sst : Meta :=
  {| file_path := path_E; product_name := "Sea Surface Temperature – sst";
     datetime_start := ""; datetime_end := "";
     satellite := ""; instrument := ""; product_type := "sst";
     size_bytes := 2048; checksum := "ef46db3751d8e999" |}.


(** * Properties *)

(** ** The monad *)

Lemma result_ret {A} (a : A) : result (mret a : M A) = inr a.
Proof. reflexivity. Qed.

Lemma result_raise {A} (e : exn) : result (raise e : M A) = inl e.
Proof. reflexivity. Qed.

Lemma result_bind {A B} (m : M A) (k : A → M B) :
  result (m ≫= k) =
  match result m with
  | inl e => inl e
  | inr a => result (k a)
  end.
Proof.
  destruct m as [t [e|a]]; cbn; [reflexivity|].
  destruct (k a); reflexivity.
Qed.

Lemma trace_bind {A B} (m : M A) (k : A → M B) :
  trace (m ≫= k) =
  trace m ++ match result m with
             | inl _ => []
             | inr a => trace (k a)
             end.
Proof.
  destruct m as [t [e|a]]; cbn; [by rewrite app_nil_r|].
  destruct (k a); reflexivity.
Qed.

Lemma result_try_except {A} (m : M A) (h : exn → M A) :
  result (try_except m h) =
  match result m with
  | inl e => result (h e)
  | inr a => inr a
  end.
Proof.
  destruct m as [t [e|a]]; cbn; [|reflexivity].
  destruct (h e); reflexivity.
Qed.

Lemma trace_try_except {A} (m : M A) (h : exn → M A) :
  trace (try_except m h) =
  trace m ++ match result m with
             | inl e => trace (h e)
             | inr _ => []
             end.
Proof.
  destruct m as [t [e|a]]; cbn; [|by rewrite app_nil_r].
  destruct (h e); reflexivity.
Qed.

Lemma M_eq {A} (m : M A) : m = (trace m, result m).
Proof. by destruct m. Qed.

(** ** Timestamps *)

Lemma is_digit_digit (n : Z) : is_digit (digit n) = true.
Proof.
  unfold is_digit, digit.
  assert (Hr : 0 <= n mod 10 < 10) by (apply Z.mod_pos_bound; lia).
  rewrite nat_ascii_embedding by lia.
  apply andb_true_intro; split; apply Nat.leb_le; lia.
Qed.

Lemma strftime_canonical (dt : datetime) : canonical (strftime dt) = true.
Proof.
  unfold canonical, strftime, pad4, pad2.
  cbv [String.append canonical_pattern replicate app match_here cclass_matches
       fmap option_fmap option_map].
  rewrite !is_digit_digit. cbn.
  rewrite !Ascii.eqb_refl. reflexivity.
Qed.

Lemma strftime_nonempty (dt : datetime) : strftime dt ≠ "".
Proof. unfold strftime, pad4. cbv [String.append]. discriminate. Qed.

Lemma canonical_nonempty (s : string) : canonical s = true → s ≠ "".
Proof. intros Hc ->. vm_compute in Hc. discriminate. Qed.

Lemma nat_of_digit (n : Z) : Z.of_nat (nat_of_ascii (digit n)) - 48 = n mod 10.
Proof.
  unfold digit. assert (0 <= n mod 10 < 10) by (apply Z.mod_pos_bound; lia).
  rewrite nat_ascii_embedding by lia. lia.
Qed.

Lemma datetime_bounds (dt : datetime) :
  0 <= year dt < 10000 ∧ 0 <= month dt < 100 ∧ 0 <= day dt < 100 ∧
  0 <= hour dt < 100 ∧ 0 <= minute dt < 100 ∧ 0 <= second dt < 100.
Proof.
  destruct dt as [y mo d h mi s Hok]. cbn. unfold datetime_ok in Hok.
  repeat (apply andb_prop in Hok as [Hok ?]).
  repeat match goal with H : (_ <=? _) = true |- _ => apply Z.leb_le in H end.
  lia.
Qed.

(** The rendering loses nothing: the six fields are read back from it. *)
Lemma strftime_fields (dt : datetime) :
  let s := strftime dt in
  field s 0 4 = year dt ∧ field s 5 2 = month dt ∧ field s 8 2 = day dt ∧
  field s 11 2 = hour dt ∧ field s 14 2 = minute dt ∧ field s 17 2 = second dt.
Proof.
  pose proof (datetime_bounds dt) as (Hy & Hmo & Hd & Hh & Hmi & Hs).
  cbn zeta. unfold field, strftime, pad4, pad2.
  cbv [String.append String.substring]. cbn [decimal].
  rewrite !nat_of_digit.
  repeat split; Z.to_euclidean_division_equations; lia.
Qed.

Lemma datetime_eq (a b : datetime) :
  year a = year b → month a = month b → day a = day b →
  hour a = hour b → minute a = minute b → second a = second b → a = b.
Proof.
  destruct a as [y mo d h mi s Ha], b as [y' mo' d' h' mi' s' Hb]. cbn.
  intros -> -> -> -> -> ->. f_equal. apply (Eqdep_dec.UIP_dec Bool.bool_dec).
Qed.

Lemma datetime_of_fields (dt : datetime) :
  datetime_of (year dt) (month dt) (day dt) (hour dt) (minute dt) (second dt) = Some dt.
Proof.
  unfold datetime_of. destruct (bool_dec _ _) as [Hok|Hno].
  - f_equal. by apply datetime_eq.
  - destruct Hno. apply datetime_range.
Qed.

(** The parser of the examples reads back what [strftime] writes. *)
Lemma isoparse_stamps_strftime (dt : datetime) : isoparse_stamps (strftime dt) = Some dt.
Proof.
  unfold isoparse_stamps.
  assert (Hbasic : match_here stamp_pattern (strftime dt) = None).
  { unfold strftime, pad4, pad2.
    cbv [String.append stamp_pattern replicate app match_here cclass_matches
         fmap option_fmap option_map].
    rewrite !is_digit_digit. reflexivity. }
  rewrite Hbasic, bool_decide_eq_false_2 by done.
  rewrite strftime_canonical.
  destruct (strftime_fields dt) as (-> & -> & -> & -> & -> & ->).
  apply datetime_of_fields.
Qed.

(** With that parser, a normalized time normalizes to itself. *)
Lemma normalize_datetime_strftime (dt : datetime) :
  @normalize_datetime dateutil_stamps (strftime dt) = strftime dt.
Proof.
  unfold normalize_datetime. cbn [isoparse dateutil_stamps].
  rewrite isoparse_stamps_strftime.
  destruct (strftime dt) eqn:Hs; [|done]. by apply strftime_nonempty in Hs.
Qed.

Section TimestampFacts.
Context {du : Dateutil}.


(** A value is parseable when it is not empty and one of the two parsers
    takes it: exactly then its normal form is not empty. *)
Lemma normalize_datetime_nonempty (value : string) :
  normalize_datetime value ≠ "" ↔
  value ≠ "" ∧ (is_Some (isoparse value) ∨ is_Some (parse value)).
Proof.
  unfold normalize_datetime. destruct value as [|c value].
  - split; [done|]. by intros [? _].
  - destruct (isoparse _) as [dt|] eqn:Hi.
    + split; [|intros _; apply strftime_nonempty].
      intros _. split; [done|]. left. by eexists.
    + destruct (parse _) as [dt|] eqn:Hp.
      * split; [|intros _; apply strftime_nonempty].
        intros _. split; [done|]. right. by eexists.
      * split; [done|]. intros [_ [[? ?]|[? ?]]]; done.
Qed.

End TimestampFacts.

(** ** The file-name pattern *)

Lemma append_String (c : ascii) (m post : string) :
  String c m +:+ post = String c (m +:+ post).
Proof. reflexivity. Qed.

Lemma append_empty (s : string) : "" +:+ s = s.
Proof. reflexivity. Qed.

Lemma append_assoc (a b c : string) : (a +:+ b) +:+ c = a +:+ b +:+ c.
Proof. induction a as [|x a IH]; [done|]. rewrite !append_String. by rewrite IH. Qed.


Lemma match_here_extend (pat : list cclass) (m post : string) :
  match_here pat m = Some m → match_here pat (m +:+ post) = Some m.
Proof.
  revert m. induction pat as [|k pat IH]; intros m; cbn.
  - by intros [= <-].
  - destruct m as [|c m]; [done|]. rewrite append_String. cbn.
    destruct (cclass_matches k c); [|done].
    destruct (match_here pat m) as [m'|] eqn:Hm; [|done].
    intros [= ->]. by rewrite (IH _ Hm).
Qed.

Lemma match_here_app (p1 p2 : list cclass) (m1 m2 : string) :
  match_here p1 m1 = Some m1 → match_here p2 m2 = Some m2 →
  match_here (p1 ++ p2) (m1 +:+ m2) = Some (m1 +:+ m2).
Proof.
  revert m1. induction p1 as [|k p1 IH]; intros m1; cbn.
  - by intros [= <-].
  - destruct m1 as [|c m1]; [done|]. rewrite append_String. cbn.
    destruct (cclass_matches k c); [|done].
    destruct (match_here p1 m1) as [m'|] eqn:Hm; [|done].
    intros [= ->] H2. by rewrite (IH _ Hm H2).
Qed.








Lemma search_stamp_pair_complete (s g1 g2 : string) :
  has_stamp_pair s g1 g2 → is_Some (search_stamp_pair s).
Proof.
  intros (pre & post & -> & H1 & H2).
  assert (Hm : match_here stamp_pair_pattern (g1 +:+ "_" +:+ g2 +:+ post)
               = Some (g1 +:+ "_" +:+ g2)).
  { assert (Hin : match_here stamp_pair_pattern (g1 +:+ "_" +:+ g2)
                  = Some (g1 +:+ "_" +:+ g2)).
    { unfold stamp_pair_pattern. apply match_here_app; [done|].
      apply (match_here_app [Lit "_"] stamp_pattern "_" g2); done. }
    pose proof (match_here_extend _ _ post Hin) as Hx.
    rewrite <- Hx. f_equal. by rewrite !append_assoc. }
  induction pre as [|c pre IH].
  - rewrite append_empty. destruct (g1 +:+ "_" +:+ g2 +:+ post) eqn:E.
    + cbn in Hm. done.
    + cbn [search_stamp_pair]. rewrite Hm. by eexists.
  - rewrite append_String. cbn [search_stamp_pair].
    destruct (match_here stamp_pair_pattern (String c _)); [by eexists|done].
Qed.

Section FilenameTimes.
Context {du : Dateutil}.



End FilenameTimes.

(** ** The extractor *)

Lemma result_stat (fs : FS) (p : string) :
  result (stat fs p) =
  match fs !! p with
  | Some f => inr (st_size f)
  | None => inl FileNotFoundError
  end.
Proof. unfold stat. rewrite result_bind. cbn. by destruct (fs !! p). Qed.

Lemma trace_stat (fs : FS) (p : string) : trace (stat fs p) = [EvStat p].
Proof. unfold stat. rewrite trace_bind. cbn. by destruct (fs !! p). Qed.

Lemma result_open_with {A} (fs : FS) (ev : Event) (view : NcFile → exn + A) (p : string) :
  result (open_with fs ev view p) =
  match fs !! p with
  | Some f => view f
  | None => inl FileNotFoundError
  end.
Proof. unfold open_with. rewrite result_bind. cbn. by destruct (fs !! p). Qed.

Lemma trace_open_with {A} (fs : FS) (ev : Event) (view : NcFile → exn + A) (p : string) :
  trace (open_with fs ev view p) = [ev].
Proof. unfold open_with. rewrite trace_bind. cbn. by destruct (fs !! p). Qed.

Section ExtractorFacts.
Context {du : Dateutil} {xx : Xxhash}.

Lemma extract_metadata_guarded (fs : FS) (p : string) (f : NcFile) :
  fs !! p = Some f → st_size f ≤ MAX_SIZE_MB * 1024 * 1024 →
  result (extract_metadata fs p) =
  match result (geospatial fs p), head8k f, nc_view f with
  | inr bbox, inr head, inr nc => inr (records_of p f nc head bbox)
  | inl e, _, _ => inr (Failure e)
  | _, inl e, _ => inr (Failure e)
  | _, _, inl e => inr (Failure e)
  end.
Proof.
  intros Hf Hsize. unfold extract_metadata.
  rewrite result_bind, result_stat, Hf.
  destruct (Z.ltb_spec (MAX_SIZE_MB * 1024 * 1024) (st_size f)) as [?|_]; [lia|].
  rewrite result_try_except, result_bind.
  destruct (result (geospatial fs p)) as [e|bbox]; [done|].
  rewrite result_bind, result_stat, Hf.
  unfold read_head, open_dataset.
  rewrite result_bind, result_open_with, Hf.
  destruct (head8k f) as [e|head]; [done|].
  rewrite result_bind, result_open_with, Hf.
  destruct (nc_view f) as [e|nc]; [done|].
  unfold records_of.
  destruct (matched_vars _); done.
Qed.

End ExtractorFacts.

(** ** The loader *)

Section LoaderFacts.
Context {sch : Schema}.

Lemma exec_ins_product_present (meta : Meta) (st : Store) :
  is_Some (products st !! key_of meta) → exec_ins_product meta st = st.
Proof. intros [r Hr]. unfold exec_ins_product. by rewrite Hr. Qed.

Lemma exec_ins_product_refused (meta : Meta) (st : Store) :
  accepts meta = false → exec_ins_product meta st = st.
Proof.
  intros Hr. unfold exec_ins_product. rewrite Hr. by destruct (products st !! _).
Qed.

Lemma exec_ins_product_mono (meta : Meta) (st : Store) (k : string * string) r :
  products st !! k = Some r → products (exec_ins_product meta st) !! k = Some r.
Proof.
  intros Hk. unfold exec_ins_product.
  destruct (products st !! key_of meta) eqn:Hm; [done|].
  destruct (accepts meta); [|done]. cbn.
  rewrite lookup_insert_ne; [done|]. intros Heq. congruence.
Qed.

Lemma exec_ins_product_other (meta : Meta) (st : Store) (k : string * string) :
  k ≠ key_of meta → products (exec_ins_product meta st) !! k = products st !! k.
Proof.
  intros Hk. unfold exec_ins_product.
  destruct (products st !! key_of meta) eqn:Hm; [done|].
  destruct (accepts meta); [|done]. cbn. by rewrite lookup_insert_ne.
Qed.

Lemma exec_ins_product_bbox (meta : Meta) (st : Store) :
  bbox_index (exec_ins_product meta st) = bbox_index st.
Proof.
  unfold exec_ins_product. destruct (products st !! _); [done|].
  by destruct (accepts meta).
Qed.

(** The select after the insert finds a row exactly when the key was
    there or the schema takes the record. *)
Lemma select_after_insert (meta : Meta) (st : Store) :
  select_id (key_of meta) (exec_ins_product meta st) = None ↔
  products st !! key_of meta = None ∧ accepts meta = false.
Proof.
  unfold select_id, exec_ins_product.
  destruct (products st !! key_of meta) as [r|] eqn:Hm.
  - rewrite Hm. cbn. split; [done|]. by intros [? _].
  - destruct (accepts meta); cbn.
    + rewrite lookup_insert_eq. cbn. split; [done|]. by intros [_ ?].
    + by rewrite Hm.
Qed.

Lemma exec_ins_bbox_products (i : Z) (b : BBox) (st : Store) :
  products (exec_ins_bbox i b st) = products st.
Proof. unfold exec_ins_bbox. by destruct (bbox_index st !! i). Qed.

Lemma exec_ins_bbox_present (i : Z) (b : BBox) (st : Store) :
  is_Some (bbox_index st !! i) → exec_ins_bbox i b st = st.
Proof. intros [r Hr]. unfold exec_ins_bbox. by rewrite Hr. Qed.

Lemma exec_ins_bbox_self (i : Z) (b : BBox) (st : Store) :
  is_Some (bbox_index (exec_ins_bbox i b st) !! i).
Proof.
  unfold exec_ins_bbox. destruct (bbox_index st !! i) eqn:Hi.
  - by rewrite Hi.
  - cbn. rewrite lookup_insert_eq. by eexists.
Qed.

Lemma exec_ins_bbox_mono (i j : Z) (b : BBox) (st : Store) :
  is_Some (bbox_index st !! j) → is_Some (bbox_index (exec_ins_bbox i b st) !! j).
Proof.
  intros Hj. unfold exec_ins_bbox. destruct (bbox_index st !! i) eqn:Hi; [done|].
  cbn. destruct (decide (i = j)) as [->|Hne].
  - rewrite lookup_insert_eq. by eexists.
  - by rewrite lookup_insert_ne.
Qed.


(** With a bounding box in the deque for every record, no [popleft]
    fails. *)
Lemma flush_returns (metas : list Meta) (bboxes : list BBox) (st : Store) :
  (length metas ≤ length bboxes)%nat →
  ∃ rest st', result (_flush metas bboxes st) = inr (rest, st') ∧
              (length bboxes ≤ length rest + length metas)%nat.
Proof.
  revert bboxes st. induction metas as [|meta metas IH]; intros bboxes st Hlen.
  - exists bboxes, st. split; [done|]. cbn. lia.
  - cbn [_flush]. cbn in Hlen. destruct (select_id _ _).
    + destruct bboxes as [|b bboxes]; [cbn in Hlen; lia|]. cbn in Hlen.
      destruct (IH bboxes (exec_ins_bbox z b (exec_ins_product meta st)))
        as (rest & st' & Hr & Hl); [lia|].
      exists rest, st'. split; [done|]. cbn. lia.
    + destruct (IH bboxes (exec_ins_product meta st)) as (rest & st' & Hr & Hl); [lia|].
      exists rest, st'. split; [done|]. cbn. lia.
Qed.

(** One flush saturates the store for every record it went through, and
    keeps it saturated for the records it was saturated for. *)
Lemma flush_saturates (metas : list Meta) (bboxes : list BBox) (st : Store) rest st' :
  result (_flush metas bboxes st) = inr (rest, st') →
  (∀ m, saturated st m → saturated st' m) ∧ (∀ m, m ∈ metas → saturated st' m).
Proof.
  revert bboxes st. induction metas as [|meta metas IH]; intros bboxes st.
  - cbn. intros [= <- <-]. split; [done|]. intros m Hm. by apply elem_of_nil in Hm.
  - cbn [_flush]. fold (key_of meta).
    destruct (select_id (key_of meta) (exec_ins_product meta st)) as [prod_id|] eqn:Hsel.
    + destruct bboxes as [|b bboxes]; [done|].
      intros Hr. apply IH in Hr as [Hkeep Hnew].
      set (st1 := exec_ins_product meta st) in *.
      set (st2 := exec_ins_bbox prod_id b st1) in *.
      assert (Hcov : covered st2 (key_of meta)).
      { intros i m Hi. unfold st2 in Hi. rewrite exec_ins_bbox_products in Hi.
        unfold select_id in Hsel. rewrite Hi in Hsel. cbn in Hsel.
        injection Hsel as <-. apply exec_ins_bbox_self. }
      assert (Hstep : ∀ m, saturated st m → saturated st2 m).
      { intros m [Hacc Hc]. split.
        - intros Ha. destruct (Hacc Ha) as [r Hr].
          exists r. unfold st2. rewrite exec_ins_bbox_products.
          by apply exec_ins_product_mono.
        - destruct (decide (key_of m = key_of meta)) as [->|Hne]; [done|].
          intros i m' Hi. unfold st2 in Hi. rewrite exec_ins_bbox_products in Hi.
          unfold st1 in Hi. rewrite exec_ins_product_other in Hi by done.
          apply exec_ins_bbox_mono. unfold st1. rewrite exec_ins_product_bbox.
          by eapply Hc. }
      split; [auto|].
      intros m [->|Hm]%elem_of_cons; [|auto].
      apply Hkeep. split; [|done].
      intros _. unfold st2. rewrite exec_ins_bbox_products.
      unfold select_id in Hsel. destruct (products st1 !! key_of meta); [by eexists|done].
    + apply select_after_insert in Hsel as Hno. destruct Hno as [Hnone Hrej].
      rewrite (exec_ins_product_refused _ _ Hrej).
      intros Hr. apply IH in Hr as [Hkeep Hnew].
      split; [done|].
      intros m [->|Hm]%elem_of_cons; [|auto].
      apply Hkeep. split; [by rewrite Hrej|].
      intros i m' Hi. by rewrite Hnone in Hi.
Qed.

(** On a store saturated for every record of the deque, a flush writes
    nothing. *)
Lemma flush_noop (metas : list Meta) (bboxes : list BBox) (st : Store) :
  (∀ m, m ∈ metas → saturated st m) →
  (length metas ≤ length bboxes)%nat →
  ∃ rest, result (_flush metas bboxes st) = inr (rest, st) ∧
          (length bboxes ≤ length rest + length metas)%nat.
Proof.
  revert bboxes. induction metas as [|meta metas IH]; intros bboxes Hsat Hlen.
  - exists bboxes. split; [done|]. cbn. lia.
  - cbn [_flush]. fold (key_of meta). cbn in Hlen.
    destruct (Hsat meta) as [Hacc Hcov]; [by left|].
    assert (Hst : exec_ins_product meta st = st).
    { destruct (products st !! key_of meta) eqn:Hk.
      - apply exec_ins_product_present. by eexists.
      - apply exec_ins_product_refused. destruct (accepts meta); [|done].
        destruct Hacc as [? ?]; [done|congruence]. }
    rewrite Hst. unfold select_id.
    destruct (products st !! key_of meta) as [[i m']|] eqn:Hk; cbn.
    + destruct bboxes as [|b bboxes]; [cbn in Hlen; lia|]. cbn in Hlen.
      rewrite exec_ins_bbox_present by (by eapply Hcov).
      destruct (IH bboxes) as (rest & Hr & Hl); [|lia|].
      { intros m Hm. apply Hsat. by right. }
      exists rest. split; [done|]. cbn. lia.
    + destruct (IH bboxes) as (rest & Hr & Hl); [|lia|].
      { intros m Hm. apply Hsat. by right. }
      exists rest. split; [done|]. cbn. lia.
Qed.

End LoaderFacts.

(** ** The orchestrator *)

Section OrchestratorFacts.
Context {du : Dateutil} {xx : Xxhash} {sch : Schema}.

Lemma result_ingest_step (fs : FS) bm bb st (p : string) :
  result (ingest_step fs (bm, bb, st) p) =
  match result (extract_metadata fs p) with
  | inl e => inl e
  | inr (Failure _) => inr (bm, bb, st)
  | inr (Records metas bboxes) =>
      let pairs := zip metas bboxes in
      if (BATCH_SIZE <=? length (bm ++ pairs.*1))%nat then
        match result (_flush (bm ++ pairs.*1) (bb ++ pairs.*2) st) with
        | inl e => inl e
        | inr flushed => inr ([], flushed.1, flushed.2)
        end
      else inr (bm ++ pairs.*1, bb ++ pairs.*2, st)
  end.
Proof.
  unfold ingest_step. rewrite result_bind.
  destruct (result (extract_metadata fs p)) as [e|[metas bboxes|exc]]; [done| |done].
  cbn zeta. destruct (_ <=? _)%nat; [|done].
  rewrite result_bind. by destruct (result (_flush _ _ _)).
Qed.

Lemma result_ingest_loop_cons (fs : FS) state (p : string) (rest : list string) :
  result (ingest_loop fs state (p :: rest)) =
  match result (ingest_step fs state p) with
  | inl e => inl e
  | inr state' => result (ingest_loop fs state' rest)
  end.
Proof. cbn [ingest_loop]. by rewrite result_bind. Qed.

Lemma result_ingest (fs : FS) (arrival : list string) (st : Store) :
  result (ingest fs arrival st) =
  match result (ingest_loop fs ([], [], st) arrival) with
  | inl e => inl e
  | inr state =>
      match result (_flush state.1.1 state.1.2 state.2) with
      | inl e => inl e
      | inr flushed => inr flushed.2
      end
  end.
Proof.
  unfold ingest. rewrite result_bind.
  destruct (ingest_loop fs ([], [], st) arrival) as [t [e|state]]; [done|].
  cbn [result snd]. rewrite result_bind. by destruct (_flush _ _ _) as [t' [e|fl]].
Qed.

Lemma zip_sides_length {A B} (l : list A) (k : list B) :
  length (zip l k).*1 = length (zip l k).*2.
Proof. by rewrite !length_fmap. Qed.

(** The loop of a run that ends: the deques stay matched in length, and
    every record met so far is still in the deque or saturated. *)
Lemma ingest_loop_saturates (fs : FS) (arrival : list string) bm bb st bm' bb' st' :
  result (ingest_loop fs (bm, bb, st) arrival) = inr (bm', bb', st') →
  (length bm ≤ length bb)%nat →
  (length bm' ≤ length bb')%nat ∧
  (∀ m, saturated st m → saturated st' m) ∧
  (∀ m, m ∈ bm → m ∈ bm' ∨ saturated st' m) ∧
  (∀ p, p ∈ arrival →
     (∃ o, result (extract_metadata fs p) = inr o) ∧
     ∀ m, m ∈ (pairs_of fs p).*1 → m ∈ bm' ∨ saturated st' m).
Proof.
  revert bm bb st. induction arrival as [|p arrival IH]; intros bm bb st.
  - cbn [ingest_loop]. rewrite result_ret. intros [= <- <- <-] Hlen.
    split; [done|]. split; [done|]. split; [by left|].
    intros p Hp. by apply elem_of_nil in Hp.
  - rewrite result_ingest_loop_cons, result_ingest_step. unfold pairs_of in *.
    destruct (result (extract_metadata fs p)) as [e|[metas bboxes|exc]] eqn:Hex; [done| |].
    + cbn zeta. pose proof (zip_sides_length metas bboxes) as Hz.
      destruct (_ <=? _)%nat.
      * destruct (result (_flush _ _ _)) as [e|[rest st1]] eqn:Hfl; [done|].
        cbn [fst snd]. intros Hloop Hlen.
        apply flush_saturates in Hfl as [Hkeep Hnew].
        apply IH in Hloop as (Hl & Hk & Hb & Ha); [|cbn; lia].
        split; [done|]. split; [auto|]. split.
        { intros m Hm. right. apply Hk, Hnew. apply elem_of_app. by left. }
        intros q [->|Hq]%elem_of_cons; [|by apply Ha].
        split; [by eexists|]. rewrite Hex.
        intros m Hm. right. apply Hk, Hnew. apply elem_of_app. by right.
      * intros Hloop Hlen.
        apply IH in Hloop as (Hl & Hk & Hb & Ha); [|rewrite !length_app; lia].
        split; [done|]. split; [done|]. split.
        { intros m Hm. apply Hb. apply elem_of_app. by left. }
        intros q [->|Hq]%elem_of_cons; [|by apply Ha].
        split; [by eexists|]. rewrite Hex.
        intros m Hm. apply Hb. apply elem_of_app. by right.
    + intros Hloop Hlen.
      apply IH in Hloop as (Hl & Hk & Hb & Ha); [|done].
      split; [done|]. split; [done|]. split; [done|].
      intros q [->|Hq]%elem_of_cons; [|by apply Ha].
      split; [by eexists|]. rewrite Hex. intros m Hm. by apply elem_of_nil in Hm.
Qed.

(** After a run that commits, the store is saturated for every record of
    every file of the run, and no extraction had raised. *)
Lemma ingest_saturates (fs : FS) (arrival : list string) (st st1 : Store) :
  result (ingest fs arrival st) = inr st1 →
  ∀ p, p ∈ arrival →
    (∃ o, result (extract_metadata fs p) = inr o) ∧
    ∀ m, m ∈ (pairs_of fs p).*1 → saturated st1 m.
Proof.
  rewrite result_ingest.
  destruct (result (ingest_loop _ _ _)) as [e|[[bm bb] st']] eqn:Hloop; [done|].
  cbn [fst snd]. destruct (result (_flush _ _ _)) as [e|[rest st2]] eqn:Hfl; [done|].
  cbn. intros [= ->] p Hp.
  apply ingest_loop_saturates in Hloop as (_ & _ & _ & Ha); [|done].
  apply flush_saturates in Hfl as [Hkeep Hnew].
  destruct (Ha p Hp) as [Hex Hm]. split; [done|].
  intros m Hin. destruct (Hm m Hin); auto.
Qed.

(** On a store saturated for all the records to come, the loop writes
    nothing. *)
Lemma ingest_loop_noop (fs : FS) (arrival : list string) bm bb st :
  (∀ p, p ∈ arrival →
     (∃ o, result (extract_metadata fs p) = inr o) ∧
     ∀ m, m ∈ (pairs_of fs p).*1 → saturated st m) →
  (∀ m, m ∈ bm → saturated st m) →
  (length bm ≤ length bb)%nat →
  ∃ bm' bb', result (ingest_loop fs (bm, bb, st) arrival) = inr (bm', bb', st) ∧
             (∀ m, m ∈ bm' → saturated st m) ∧ (length bm' ≤ length bb')%nat.
Proof.
  revert bm bb. induction arrival as [|p arrival IH]; intros bm bb Hall Hbm Hlen.
  - by exists bm, bb.
  - rewrite result_ingest_loop_cons, result_ingest_step.
    destruct (Hall p) as [[o Hex] Hsat]; [by left|]. unfold pairs_of in Hsat.
    rewrite Hex in *.
    assert (Hrest : ∀ q, q ∈ arrival →
              (∃ o, result (extract_metadata fs q) = inr o) ∧
              ∀ m, m ∈ (pairs_of fs q).*1 → saturated st m).
    { intros q Hq. apply Hall. by right. }
    destruct o as [metas bboxes|exc]; [|by apply IH].
    cbn zeta. pose proof (zip_sides_length metas bboxes) as Hz.
    assert (Hbm' : ∀ m, m ∈ bm ++ (zip metas bboxes).*1 → saturated st m).
    { intros m [?|?]%elem_of_app; auto. }
    destruct (_ <=? _)%nat.
    + destruct (flush_noop (bm ++ (zip metas bboxes).*1) (bb ++ (zip metas bboxes).*2) st)
        as (rest & Hfl & Hl); [done|rewrite !length_app; lia|].
      rewrite Hfl. cbn [fst snd]. apply IH; [done| |cbn; lia].
      intros m Hm. by apply elem_of_nil in Hm.
    + apply IH; [done|done|rewrite !length_app; lia].
Qed.

(** C1.  Running the pipeline again over an unchanged file set writes
    nothing: after a run that committed [st1], a run over the same files
    (in any order of arrival, [arrival2] holding no file that [arrival1]
    has not) commits [st1] again, so the [products] and the [bbox_index]
    tables have as many rows as after the first run. *)
Theorem ingest_idempotent (fs : FS) (arrival1 arrival2 : list string) (st st1 : Store) :
  result (ingest fs arrival1 st) = inr st1 →
  arrival2 ⊆ arrival1 →
  ∃ st2, result (ingest fs arrival2 st1) = inr st2 ∧
         st2 = st1 ∧
         size (products st2) = size (products st1) ∧
         size (bbox_index st2) = size (bbox_index st1).
Proof.
  intros Hrun Hsub. pose proof (ingest_saturates _ _ _ _ Hrun) as Hsat.
  destruct (ingest_loop_noop fs arrival2 [] [] st1) as (bm & bb & Hloop & Hbm & Hlen).
  - intros p Hp. apply Hsat. by apply Hsub.
  - intros m Hm. by apply elem_of_nil in Hm.
  - done.
  - destruct (flush_noop bm bb st1 Hbm Hlen) as (rest & Hfl & _).
    exists st1. rewrite result_ingest, Hloop. cbn [fst snd]. by rewrite Hfl.
Qed.

End OrchestratorFacts.

(** ** Properties of the extractor *)

Lemma Group_nested_ind (P : Group → Prop) :
  (∀ vars subs, Forall (λ ns, P ns.2) subs → P (mk_group vars subs)) →
  ∀ g, P g.
Proof.
  intros step. fix IH 1. intros [vars subs]. apply step.
  induction subs as [|[name sub] subs IHsubs]; constructor; [apply IH|apply IHsubs].
Qed.




Section ExtractorProperties.
Context {du : Dateutil} {xx : Xxhash}.

(** Past the size guard nothing escapes: whatever goes wrong with an
    existing file is returned as a failure. *)
Lemma extract_metadata_catches (fs : FS) (p : string) (f : NcFile) :
  fs !! p = Some f → ∃ o, result (extract_metadata fs p) = inr o.
Proof.
  intros Hf. destruct (Z.le_gt_cases (st_size f) (MAX_SIZE_MB * 1024 * 1024)) as [Hle|Hgt].
  - rewrite (extract_metadata_guarded _ _ _ Hf Hle).
    destruct (result (geospatial fs p)), (head8k f), (nc_view f); by eexists.
  - exists (Records [] []). unfold extract_metadata.
    rewrite result_bind, result_stat, Hf.
    destruct (Z.ltb_spec (MAX_SIZE_MB * 1024 * 1024) (st_size f)); [|lia].
    by rewrite result_bind, result_stat, Hf.
Qed.

(** What the records of a file are made of. *)
Lemma extract_metadata_records (fs : FS) (p : string) (f : NcFile) metas bboxes :
  fs !! p = Some f →
  result (extract_metadata fs p) = inr (Records metas bboxes) →
  (metas = [] ∧ bboxes = []) ∨
  ∃ nc head bbox,
    nc_view f = inr nc ∧ head8k f = inr head ∧ result (geospatial fs p) = inr bbox ∧
    Records metas bboxes = records_of p f nc head bbox.
Proof.
  intros Hf. destruct (Z.le_gt_cases (st_size f) (MAX_SIZE_MB * 1024 * 1024)) as [Hle|Hgt].
  - rewrite (extract_metadata_guarded _ _ _ Hf Hle).
    destruct (result (geospatial fs p)) as [e|bbox]; [done|].
    destruct (head8k f) as [e|head]; [done|].
    destruct (nc_view f) as [e|nc]; [done|].
    intros Heq. right. exists nc, head, bbox. repeat split; congruence.
  - unfold extract_metadata. rewrite result_bind, result_stat, Hf.
    destruct (Z.ltb_spec (MAX_SIZE_MB * 1024 * 1024) (st_size f)); [|lia].
    rewrite result_bind, result_stat, Hf. cbn. intros [= <- <-]. by left.
Qed.



End ExtractorProperties.


Section FanOut.
Context {du : Dateutil} {xx : Xxhash}.

Lemma matched_vars_NoDup (vars_in_nc : gset string) : NoDup (matched_vars vars_in_nc).
Proof. unfold matched_vars. apply NoDup_filter, NoDup_elements. Qed.

Lemma elem_of_matched_vars (vars_in_nc : gset string) (v : string) :
  v ∈ matched_vars vars_in_nc ↔ v ∈ vars_in_nc ∧ is_Some (VARIABLES_ALIAS !! v).
Proof. unfold matched_vars. rewrite list_elem_of_filter, elem_of_elements. tauto. Qed.



End FanOut.

Section Escapes.
Context {du : Dateutil} {xx : Xxhash} {sch : Schema}.

(** A failure that the extractor returns is printed, and the loop goes on
    with what it had. *)
Lemma ingest_step_failure (fs : FS) (state : LoaderState) (p : string) (exc : exn) :
  result (extract_metadata fs p) = inr (Failure exc) →
  ingest_step fs state p =
    (trace (extract_metadata fs p) ++ [EvPrint (FileFailed (path_name p) exc)], inr state).
Proof.
  destruct state as [[bm bb] st]. unfold ingest_step.
  destruct (extract_metadata fs p) as [t [e|o]]; cbn; [done|].
  by intros [= ->].
Qed.

(** The scan keeps the files whose stem is not on the list. *)
Lemma elem_of_all_nc (found : list string) (p : string) :
  p ∈ all_nc found ↔ p ∈ found ∧ str_in (path_stem p) BLACKLIST = false.
Proof. unfold all_nc. rewrite list_elem_of_filter. tauto. Qed.

(** A run in which the future of one file raises does not commit. *)
Lemma ingest_loop_raises (fs : FS) (arrival : list string) (p : string) state :
  p ∈ arrival →
  (∃ e, result (extract_metadata fs p) = inl e) →
  ∃ e, result (ingest_loop fs state arrival) = inl e.
Proof.
  intros Hp [e He]. revert state.
  induction arrival as [|q arrival IH]; intros [[bm bb] st].
  { by apply elem_of_nil in Hp. }
  rewrite result_ingest_loop_cons.
  destruct (result (ingest_step fs (bm, bb, st) q)) as [e'|state'] eqn:Hstep.
  { by exists e'. }
  apply elem_of_cons in Hp as [->|Hp]; [|by apply IH].
  rewrite result_ingest_step, He in Hstep. done.
Qed.

(** C2, where the code departs from it.  The size guard asks for the size
    of the file before the [try] that turns exceptions into failures: for a
    path that is not there any more (a file removed after the scan, a
    dangling link) [extract_metadata] raises instead of returning a
    failure, and the run that meets it ends by that exception, without
    committing what the other files gave. *)
Theorem missing_file_escapes (fs : FS) (p : string) (arrival : list string) (st : Store) :
  fs !! p = None →
  p ∈ arrival →
  extract_metadata fs p = ([EvStat p], inl FileNotFoundError) ∧
  (∃ e, result (ingest fs arrival st) = inl e) ∧
  store_after st (ingest fs arrival st) = st.
Proof.
  intros Hp Hin.
  assert (Hex : extract_metadata fs p = ([EvStat p], inl FileNotFoundError)).
  { unfold extract_metadata, stat. by rewrite Hp. }
  split; [done|].
  destruct (ingest_loop_raises fs arrival p ([], [], st) Hin) as [e He].
  { exists FileNotFoundError. by rewrite Hex. }
  assert (Hrun : result (ingest fs arrival st) = inl e).
  { by rewrite result_ingest, He. }
  split; [by exists e|]. unfold store_after. by rewrite Hrun.
Qed.

End Escapes.

Section SizeGuard.
Context {du : Dateutil} {xx : Xxhash}.

(** C5, as the code has it.  A file over the threshold gives the empty
    list of records at once, none of the readers having opened it; the
    skip is not silent: one line is printed, a warning with the name of the
    file and its size. *)
Theorem size_guard_skips_with_warning (fs : FS) (p : string) (f : NcFile) :
  fs !! p = Some f →
  MAX_SIZE_MB * 1024 * 1024 < st_size f →
  extract_metadata fs p =
    ([EvStat p; EvStat p; EvPrint (TooLarge (path_name p) (st_size f))],
     inr (Records [] [])) ∧
  never_opened (trace (extract_metadata fs p)).
Proof.
  intros Hf Hsize.
  assert (Hex : extract_metadata fs p =
    ([EvStat p; EvStat p; EvPrint (TooLarge (path_name p) (st_size f))],
     inr (Records [] []))).
  { unfold extract_metadata, stat. rewrite Hf. cbn.
    destruct (Z.ltb_spec (MAX_SIZE_MB * 1024 * 1024) (st_size f)); [done|lia]. }
  split; [done|]. rewrite Hex. cbn.
  intros ev Hev. repeat (apply elem_of_cons in Hev as [->|Hev]; [done|]).
  by apply elem_of_nil in Hev.
Qed.

End SizeGuard.

(** ** Pairing of records and bounding boxes *)

Lemma wf_empty_store : wf empty_store.
Proof.
  split; [|split]; cbn.
  - intros k i m Hk. by rewrite lookup_empty in Hk.
  - intros k1 k2 i m1 m2 Hk. by rewrite lookup_empty in Hk.
  - intros i [b Hb]. by rewrite lookup_empty in Hb.
Qed.

Section Pairing.
Context {sch : Schema}.

Lemma resolved_select (st : Store) (meta : Meta) :
  resolved st meta → is_Some (select_id (key_of meta) (exec_ins_product meta st)).
Proof.
  intros Hr. destruct (select_id _ _) eqn:Hsel; [by eexists|].
  apply select_after_insert in Hsel as [Hnone Hrej].
  destruct Hr as [Ha|[r Hr]]; congruence.
Qed.

Lemma load_pair_products_mono (st : Store) (mb : Meta * BBox) k r :
  products st !! k = Some r → products (load_pair st mb) !! k = Some r.
Proof.
  intros Hk. unfold load_pair. destruct (select_id _ _).
  - rewrite exec_ins_bbox_products. by apply exec_ins_product_mono.
  - by apply exec_ins_product_mono.
Qed.

Lemma resolved_load_pair (st : Store) (mb : Meta * BBox) (meta : Meta) :
  resolved st meta → resolved (load_pair st mb) meta.
Proof.
  intros [Ha|[r Hr]]; [by left|]. right. exists r. by apply load_pair_products_mono.
Qed.

(** While every record resolves, [_flush] gives the i-th record the i-th
    bounding box, and uses up as many boxes as records. *)
Lemma flush_aligned (metas : list Meta) (bboxes : list BBox) (st : Store) :
  Forall (resolved st) metas →
  (length metas ≤ length bboxes)%nat →
  _flush metas bboxes st =
    mret (drop (length metas) bboxes, foldl load_pair st (zip metas bboxes)).
Proof.
  revert bboxes st. induction metas as [|meta metas IH]; intros bboxes st Hres Hlen.
  - cbn. by rewrite drop_0.
  - apply Forall_cons in Hres as [Hm Hres].
    destruct bboxes as [|b bboxes]; [cbn in Hlen; lia|]. cbn in Hlen.
    cbn [_flush zip zip_with foldl length drop]. fold (key_of meta).
    destruct (resolved_select _ _ Hm) as [i Hi].
    unfold load_pair at 2. cbn [fst snd]. rewrite Hi.
    apply IH; [|lia].
    eapply Forall_impl; [exact Hres|]. intros m Hr.
    pose proof (resolved_load_pair st (meta, b) m Hr) as Hr'.
    unfold load_pair in Hr'. cbn [fst snd] in Hr'. by rewrite Hi in Hr'.
Qed.

Lemma wf_load_pair (st : Store) (mb : Meta * BBox) : wf st → wf (load_pair st mb).
Proof.
  intros (Hlt & Hinj & Hbb). destruct mb as [meta b].
  unfold load_pair, select_id, exec_ins_product. cbn [fst snd].
  destruct (products st !! key_of meta) as [[i0 m0]|] eqn:Hk.
  - rewrite Hk. cbn. unfold exec_ins_bbox.
    destruct (bbox_index st !! i0) eqn:Hb; [done|].
    split; [|split]; cbn; [done|done|].
    intros i [b' Hi]. destruct (decide (i0 = i)) as [<-|Hne]; [by eapply Hlt|].
    rewrite lookup_insert_ne in Hi by done. apply Hbb. by eexists.
  - destruct (accepts meta); [|by rewrite Hk].
    cbn. rewrite lookup_insert_eq. cbn. unfold exec_ins_bbox. cbn.
    assert (Hfresh : bbox_index st !! next_id st = None).
    { destruct (bbox_index st !! next_id st) eqn:Hb; [|done].
      assert (next_id st < next_id st) by (apply Hbb; by eexists). lia. }
    rewrite Hfresh. split; [|split]; cbn.
    + intros k i m. destruct (decide (key_of meta = k)) as [<-|Hne].
      * rewrite lookup_insert_eq. intros [= <- <-]. lia.
      * rewrite lookup_insert_ne by done. intros Hi. apply Hlt in Hi. lia.
    + intros k1 k2 i m1 m2.
      destruct (decide (key_of meta = k1)) as [<-|Hne1];
        destruct (decide (key_of meta = k2)) as [<-|Hne2]; [done| | |].
      * rewrite lookup_insert_eq, lookup_insert_ne by done.
        intros [= <- <-] Hi. apply Hlt in Hi. lia.
      * rewrite lookup_insert_eq, lookup_insert_ne by done.
        intros Hi [= <- <-]. apply Hlt in Hi. lia.
      * rewrite !lookup_insert_ne by done. apply Hinj.
    + intros i [b' Hi]. destruct (decide (next_id st = i)) as [<-|Hne]; [lia|].
      rewrite lookup_insert_ne in Hi by done.
      assert (i < next_id st) by (apply Hbb; by eexists). lia.
Qed.

(** Loading a record with its bounding box is [record_pair] on the
    catalogue. *)
Lemma catalogue_load_pair (st : Store) (mb : Meta * BBox) :
  wf st → resolved st mb.1 →
  catalogue (load_pair st mb) = record_pair (catalogue st) mb.
Proof.
  intros (Hlt & Hinj & Hbb) Hres. destruct mb as [meta b]. cbn [fst] in Hres.
  unfold load_pair, record_pair, select_id, exec_ins_product, catalogue. cbn [fst snd].
  rewrite lookup_fmap.
  destruct (products st !! key_of meta) as [[i0 m0]|] eqn:Hk.
  - rewrite Hk. cbn. unfold exec_ins_bbox.
    destruct (bbox_index st !! i0) eqn:Hb; [done|]. cbn.
    apply map_eq. intros k. rewrite lookup_fmap.
    destruct (decide (key_of meta = k)) as [<-|Hne].
    + rewrite lookup_insert_eq, Hk. cbn. by rewrite lookup_insert_eq.
    + rewrite lookup_insert_ne by done. rewrite lookup_fmap.
      destruct (products st !! k) as [[j m]|] eqn:Hj; [|done]. cbn.
      rewrite lookup_insert_ne; [done|].
      intros <-. apply Hne. by eapply Hinj.
  - destruct Hres as [Ha|[r Hr]]; [|congruence]. rewrite Ha.
    cbn. rewrite lookup_insert_eq. cbn. unfold exec_ins_bbox. cbn.
    assert (Hfresh : bbox_index st !! next_id st = None).
    { destruct (bbox_index st !! next_id st) eqn:Hb; [|done].
      assert (next_id st < next_id st) by (apply Hbb; by eexists). lia. }
    rewrite Hfresh. cbn.
    apply map_eq. intros k. rewrite lookup_fmap.
    destruct (decide (key_of meta = k)) as [<-|Hne].
    + rewrite !lookup_insert_eq. cbn. by rewrite lookup_insert_eq.
    + rewrite !lookup_insert_ne by done. rewrite lookup_fmap.
      destruct (products st !! k) as [[j m]|] eqn:Hj; [|done]. cbn.
      rewrite lookup_insert_ne; [done|].
      intros <-. apply Hlt in Hj. lia.
Qed.

Lemma catalogue_foldl_load_pair (pairs : list (Meta * BBox)) (st : Store) :
  wf st → Forall (λ mb, resolved st mb.1) pairs →
  catalogue (foldl load_pair st pairs) = foldl record_pair (catalogue st) pairs.
Proof.
  revert st. induction pairs as [|mb pairs IH]; intros st Hwf Hres; [done|].
  apply Forall_cons in Hres as [Hm Hres]. cbn [foldl].
  rewrite IH.
  - by rewrite catalogue_load_pair.
  - by apply wf_load_pair.
  - eapply Forall_impl; [exact Hres|]. intros x Hx. by apply resolved_load_pair.
Qed.

End Pairing.

Lemma record_pair_other c (mb : Meta * BBox) (k : string * string) :
  k ≠ key_of mb.1 → record_pair c mb !! k = c !! k.
Proof.
  intros Hk. unfold record_pair.
  destruct (c !! key_of mb.1) as [[m0 [b0|]]|]; [done| |]; by rewrite lookup_insert_ne.
Qed.

Lemma record_pair_self c (mb : Meta * BBox) :
  record_pair c mb !! key_of mb.1 =
  match c !! key_of mb.1 with
  | None => Some (mb.1, Some mb.2)
  | Some (m0, None) => Some (m0, Some mb.2)
  | Some r => Some r
  end.
Proof.
  unfold record_pair.
  destruct (c !! key_of mb.1) as [[m0 [b0|]]|] eqn:Hk; [done| |]; by rewrite lookup_insert_eq.
Qed.

Lemma record_pair_comm c (a b : Meta * BBox) :
  key_of a.1 ≠ key_of b.1 →
  record_pair (record_pair c a) b = record_pair (record_pair c b) a.
Proof.
  intros Hne. apply map_eq. intros k.
  destruct (decide (k = key_of a.1)) as [->|Ha].
  - rewrite (record_pair_other _ b) by done.
    by rewrite !record_pair_self, (record_pair_other _ b).
  - rewrite (record_pair_other _ a) by done.
    destruct (decide (k = key_of b.1)) as [->|Hb].
    + by rewrite !record_pair_self, (record_pair_other _ a).
    + by rewrite !record_pair_other.
Qed.

(** Records of different keys can be loaded in any order. *)
Lemma foldl_record_pair_perm (l1 l2 : list (Meta * BBox)) c :
  l1 ≡ₚ l2 → NoDup ((λ mb, key_of mb.1) <$> l1) →
  foldl record_pair c l1 = foldl record_pair c l2.
Proof.
  intros Hp. revert c. induction Hp as [|x l1 l2 Hp IH|x y l|l1 l2 l3 Hp1 IH1 Hp2 IH2];
    intros c Hnd.
  - done.
  - cbn. apply IH. by apply NoDup_cons in Hnd as [_ ?].
  - cbn. rewrite record_pair_comm; [done|].
    cbn in Hnd. apply NoDup_cons in Hnd as [Hx _]. intros Heq. apply Hx. rewrite Heq. by left.
  - rewrite IH1 by done. apply IH2. by rewrite <- Hp1.
Qed.

Lemma foldl_record_pair_other (l : list (Meta * BBox)) c (k : string * string) :
  k ∉ (λ mb, key_of mb.1) <$> l → foldl record_pair c l !! k = c !! k.
Proof.
  revert c. induction l as [|x l IH]; intros c Hk; [done|].
  cbn [foldl]. rewrite IH.
  - apply record_pair_other. intros ->. apply Hk. by left.
  - intros Hin. apply Hk. by right.
Qed.

(** Loaded on a catalogue that has none of their keys, records of
    different keys are all there, each with its own bounding box. *)
Lemma foldl_record_pair_fresh (l : list (Meta * BBox)) c :
  NoDup ((λ mb, key_of mb.1) <$> l) →
  (∀ mb, mb ∈ l → c !! key_of mb.1 = None) →
  ∀ mb, mb ∈ l → foldl record_pair c l !! key_of mb.1 = Some (mb.1, Some mb.2).
Proof.
  revert c. induction l as [|x l IH]; intros c Hnd Hfresh mb Hin.
  { by apply elem_of_nil in Hin. }
  cbn in Hnd. apply NoDup_cons in Hnd as [Hx Hnd]. cbn [foldl].
  apply elem_of_cons in Hin as [->|Hin].
  - rewrite foldl_record_pair_other by done.
    rewrite record_pair_self, Hfresh; [done|by left].
  - apply IH; [done| |done].
    intros y Hy. rewrite record_pair_other.
    + apply Hfresh. by right.
    + intros Heq. apply Hx. rewrite <- Heq.
      apply list_elem_of_fmap. by exists y.
Qed.


Section Stream.
Context {du : Dateutil} {xx : Xxhash} {sch : Schema}.

Lemma ingest_loop_aligned (fs : FS) (arrival : list string)
    (pend : list (Meta * BBox)) (st0 : Store) :
  (∀ p, p ∈ arrival → ∃ o, result (extract_metadata fs p) = inr o) →
  (∀ p mb, p ∈ arrival → mb ∈ pairs_of fs p → accepts mb.1 = true) →
  Forall (λ mb, accepts mb.1 = true) pend →
  ∃ pend' st',
    result (ingest_loop fs (pend.*1, pend.*2, st0) arrival) = inr (pend'.*1, pend'.*2, st') ∧
    Forall (λ mb, accepts mb.1 = true) pend' ∧
    foldl load_pair st' pend' = foldl load_pair st0 (pend ++ stream fs arrival).
Proof.
  revert pend st0. induction arrival as [|p arrival IH]; intros pend st0 Hret Hacc Hpend.
  - exists pend, st0. cbn [ingest_loop]. rewrite result_ret.
    unfold stream. cbn. by rewrite app_nil_r.
  - rewrite result_ingest_loop_cons, result_ingest_step.
    assert (Hret' : ∀ q, q ∈ arrival → ∃ o, result (extract_metadata fs q) = inr o).
    { intros q Hq. apply Hret. by right. }
    assert (Hacc' : ∀ q mb, q ∈ arrival → mb ∈ pairs_of fs q → accepts mb.1 = true).
    { intros q mb Hq. apply Hacc. by right. }
    assert (Hnew : Forall (λ mb, accepts mb.1 = true) (pairs_of fs p)).
    { apply Forall_forall. intros mb Hmb. eapply Hacc; [by left|done]. }
    unfold stream. rewrite bind_cons. fold (stream fs arrival).
    destruct (Hret p) as [o Ho]; [by left|].
    unfold pairs_of in Hnew |- * at 1. rewrite Ho in *.
    destruct o as [metas bboxes|exc].
    + cbn zeta. set (pairs := zip metas bboxes) in *.
      rewrite <- !fmap_app.
      assert (Hall : Forall (λ mb, accepts mb.1 = true) (pend ++ pairs)).
      { by apply Forall_app. }
      destruct (_ <=? _)%nat.
      * rewrite flush_aligned.
        2:{ apply Forall_fmap. eapply Forall_impl; [exact Hall|]. intros mb Hmb. by left. }
        2:{ by rewrite !length_fmap. }
        rewrite result_ret. cbn [fst snd].
        rewrite drop_ge by (by rewrite !length_fmap).
        rewrite zip_fst_snd.
        destruct (IH [] (foldl load_pair st0 (pend ++ pairs)) Hret' Hacc')
          as (pend' & st' & Hloop & Hp' & Hfold); [done|].
        exists pend', st'. split; [done|]. split; [done|].
        rewrite Hfold. cbn [app]. by rewrite !foldl_app.
      * destruct (IH (pend ++ pairs) st0 Hret' Hacc' Hall)
          as (pend' & st' & Hloop & Hp' & Hfold).
        exists pend', st'. split; [done|]. split; [done|].
        rewrite Hfold. by rewrite !foldl_app.
    + destruct (IH pend st0 Hret' Hacc' Hpend) as (pend' & st' & Hloop & Hp' & Hfold).
      exists pend', st'. by rewrite Hfold.
Qed.

(** When no extraction raises and the schema takes every record, a run
    loads the records with their own bounding boxes, in the order of
    arrival. *)
Lemma ingest_aligned (fs : FS) (arrival : list string) (st : Store) :
  (∀ p, p ∈ arrival → ∃ o, result (extract_metadata fs p) = inr o) →
  (∀ p mb, p ∈ arrival → mb ∈ pairs_of fs p → accepts mb.1 = true) →
  result (ingest fs arrival st) = inr (foldl load_pair st (stream fs arrival)).
Proof.
  intros Hret Hacc.
  destruct (ingest_loop_aligned fs arrival [] st Hret Hacc)
    as (pend' & st' & Hloop & Hp' & Hfold); [done|].
  rewrite result_ingest. cbn [fmap list_fmap] in Hloop. rewrite Hloop. cbn [fst snd].
  rewrite flush_aligned.
  - rewrite result_ret. cbn [snd]. by rewrite zip_fst_snd, Hfold.
  - apply Forall_fmap. eapply Forall_impl; [exact Hp'|]. intros mb Hmb. by left.
  - by rewrite !length_fmap.
Qed.

(** The records of a file carry its path, and no two of them have one
    product type. *)
Lemma pairs_of_keys (fs : FS) (p : string) :
  NoDup ((λ mb, key_of mb.1) <$> pairs_of fs p) ∧
  ∀ mb, mb ∈ pairs_of fs p → file_path mb.1 = p.
Proof.
  unfold pairs_of.
  destruct (result (extract_metadata fs p)) as [e|[metas bboxes|exc]] eqn:Hex;
    try (split; [constructor|intros mb Hmb; by apply elem_of_nil in Hmb]).
  destruct (fs !! p) as [f|] eqn:Hf.
  2:{ unfold extract_metadata in Hex. rewrite result_bind, result_stat, Hf in Hex. done. }
  destruct (extract_metadata_records _ _ _ _ _ Hf Hex)
    as [[-> ->]|(nc & head & bbox & _ & _ & _ & Heq)].
  { split; [constructor|intros mb Hmb; by apply elem_of_nil in Hmb]. }
  unfold records_of in Heq. injection Heq as -> ->.
  generalize (matched_vars_NoDup (walk_all_variables (root nc))).
  generalize (matched_vars (walk_all_variables (root nc))). intros l Hl.
  assert (Hzip : zip (map (meta_of p nc (st_size f) (xxh64_hexdigest head)) l)
                     (map (λ _, bbox) l)
                 = (λ v, (meta_of p nc (st_size f) (xxh64_hexdigest head) v, bbox)) <$> l).
  { clear. induction l as [|v l IH]; [done|]. cbn. by rewrite <- IH. }
  rewrite Hzip. split.
  - rewrite <- list_fmap_compose. apply NoDup_fmap_2; [|done].
    intros v1 v2. cbn. unfold key_of. cbn. by intros [= ->].
  - intros mb (v & -> & _)%list_elem_of_fmap. done.
Qed.

Lemma stream_keys_NoDup (fs : FS) (arrival : list string) :
  NoDup arrival → NoDup ((λ mb, key_of mb.1) <$> stream fs arrival).
Proof.
  induction arrival as [|p arrival IH]; intros Hnd; [constructor|].
  apply NoDup_cons in Hnd as [Hp Hnd]. unfold stream. rewrite bind_cons, fmap_app.
  apply NoDup_app. split; [apply pairs_of_keys|]. split; [|by apply IH].
  intros k (mb & -> & Hmb)%list_elem_of_fmap (mb' & Heq & Hmb')%list_elem_of_fmap.
  apply list_elem_of_bind in Hmb' as (q & Hmb' & Hq).
  apply pairs_of_keys in Hmb, Hmb'. unfold key_of in Heq. injection Heq as Hpath _.
  apply Hp. congruence.
Qed.

(** C9, as the code has it.  For files apart from one another (no path
    twice) whose records the schema all takes, on a well-formed store, the
    order in which the results arrive changes nothing to the products nor
    to the bounding box each of them has: the two runs commit stores with
    one catalogue.  The identifiers are not part of it: they follow the
    order of arrival. *)
Theorem ingest_order_up_to_identifiers (fs : FS) (arrival1 arrival2 : list string)
    (st st1 : Store) :
  wf st →
  NoDup arrival1 →
  arrival1 ≡ₚ arrival2 →
  (∀ p mb, p ∈ arrival1 → mb ∈ pairs_of fs p → accepts mb.1 = true) →
  result (ingest fs arrival1 st) = inr st1 →
  ∃ st2, result (ingest fs arrival2 st) = inr st2 ∧ catalogue st1 = catalogue st2.
Proof.
  intros Hwf Hnd Hperm Hacc Hrun.
  assert (Hret : ∀ p, p ∈ arrival1 → ∃ o, result (extract_metadata fs p) = inr o).
  { intros p Hp. by apply (ingest_saturates _ _ _ _ Hrun). }
  rewrite (ingest_aligned fs arrival1 st Hret Hacc) in Hrun. injection Hrun as <-.
  eexists. split.
  - apply ingest_aligned.
    + intros p Hp. apply Hret. by rewrite Hperm.
    + intros p mb Hp. apply Hacc. by rewrite Hperm.
  - assert (Hres : ∀ l, l ⊆ stream fs arrival1 → Forall (λ mb, resolved st mb.1) l).
    { intros l Hl. apply Forall_forall. intros mb Hmb. left.
      apply Hl in Hmb. apply list_elem_of_bind in Hmb as (p & Hmb & Hp). by eapply Hacc. }
    assert (Hs : stream fs arrival1 ≡ₚ stream fs arrival2).
    { unfold stream. by rewrite Hperm. }
    rewrite !catalogue_foldl_load_pair; [|done|apply Hres; by rewrite Hs|done|by apply Hres].
    apply foldl_record_pair_perm; [done|]. by apply stream_keys_NoDup.
Qed.

End Stream.

(** ** NaN-aware extrema *)

Lemma float_leb_refl (x : float) : x ≠ NaN → float_leb x x = true.
Proof. destruct x; cbn; try done. intros _. apply Qle_bool_iff, Qle_refl. Qed.

Lemma float_leb_total (x y : float) :
  x ≠ NaN → y ≠ NaN → float_leb x y = false → float_leb y x = true.
Proof.
  destruct x, y; cbn; try done. intros _ _ Hxy.
  apply Qle_bool_iff. destruct (Qlt_le_dec q0 q) as [Hlt|Hle].
  - by apply Qlt_le_weak.
  - apply Qle_bool_iff in Hle. congruence.
Qed.

Lemma float_leb_trans (x y z : float) :
  float_leb x y = true → float_leb y z = true → float_leb x z = true.
Proof.
  destruct x, y, z; cbn; try done. rewrite !Qle_bool_iff. apply Qle_trans.
Qed.

Lemma is_nan_true (x : float) : is_nan x = true ↔ x = NaN.
Proof. destruct x; cbn; split; done. Qed.

Lemma is_nan_false (x : float) : is_nan x = false ↔ x ≠ NaN.
Proof. destruct x; cbn; split; done. Qed.

Lemma least_step (seen : ndarray) (acc y : float) :
  least_ignoring_nan seen acc → least_ignoring_nan (seen ++ [y]) (fmin acc y).
Proof.
  intros [[-> Hall]|(Hin & Hnn & Hle)]; unfold fmin.
  - cbn [is_nan]. destruct (is_nan y) eqn:Hy.
    + apply is_nan_true in Hy as ->. left. split; [done|].
      intros z [Hz|Hz%list_elem_of_singleton]%elem_of_app; auto.
    + apply is_nan_false in Hy. right.
      split; [apply elem_of_app; right; by left|]. split; [done|].
      intros z [Hz|Hz%list_elem_of_singleton]%elem_of_app Hzn.
      * by apply Hall in Hz.
      * subst. by apply float_leb_refl.
  - apply is_nan_false in Hnn as Hacc. rewrite Hacc.
    destruct (is_nan y) eqn:Hy.
    + apply is_nan_true in Hy as ->. right.
      split; [apply elem_of_app; by left|]. split; [done|].
      intros z [Hz|Hz%list_elem_of_singleton]%elem_of_app Hzn; [by apply Hle|done].
    + apply is_nan_false in Hy. destruct (float_leb acc y) eqn:Hcmp.
      * right. split; [apply elem_of_app; by left|]. split; [done|].
        intros z [Hz|Hz%list_elem_of_singleton]%elem_of_app Hzn; [by apply Hle|by subst].
      * right. split; [apply elem_of_app; right; by left|]. split; [done|].
        intros z [Hz|Hz%list_elem_of_singleton]%elem_of_app Hzn.
        -- apply (float_leb_trans _ acc); [by apply float_leb_total|by apply Hle].
        -- subst. by apply float_leb_refl.
Qed.

Lemma greatest_step (seen : ndarray) (acc y : float) :
  greatest_ignoring_nan seen acc → greatest_ignoring_nan (seen ++ [y]) (fmax acc y).
Proof.
  intros [[-> Hall]|(Hin & Hnn & Hle)]; unfold fmax.
  - cbn [is_nan]. destruct (is_nan y) eqn:Hy.
    + apply is_nan_true in Hy as ->. left. split; [done|].
      intros z [Hz|Hz%list_elem_of_singleton]%elem_of_app; auto.
    + apply is_nan_false in Hy. right.
      split; [apply elem_of_app; right; by left|]. split; [done|].
      intros z [Hz|Hz%list_elem_of_singleton]%elem_of_app Hzn.
      * by apply Hall in Hz.
      * subst. by apply float_leb_refl.
  - apply is_nan_false in Hnn as Hacc. rewrite Hacc.
    destruct (is_nan y) eqn:Hy.
    + apply is_nan_true in Hy as ->. right.
      split; [apply elem_of_app; by left|]. split; [done|].
      intros z [Hz|Hz%list_elem_of_singleton]%elem_of_app Hzn; [by apply Hle|done].
    + apply is_nan_false in Hy. destruct (float_leb acc y) eqn:Hcmp.
      * right. split; [apply elem_of_app; right; by left|]. split; [done|].
        intros z [Hz|Hz%list_elem_of_singleton]%elem_of_app Hzn.
        -- apply (float_leb_trans _ acc); [by apply Hle|done].
        -- subst. by apply float_leb_refl.
      * right. split; [apply elem_of_app; by left|]. split; [done|].
        intros z [Hz|Hz%list_elem_of_singleton]%elem_of_app Hzn; [by apply Hle|].
        subst. by apply float_leb_total.
Qed.

Lemma foldl_steps {P : ndarray → float → Prop} (f : float → float → float) :
  (∀ seen acc y, P seen acc → P (seen ++ [y]) (f acc y)) →
  ∀ a seen acc, P seen acc → P (seen ++ a) (foldl f acc a).
Proof.
  intros Hstep a. induction a as [|y a IH]; intros seen acc Hacc.
  - by rewrite app_nil_r.
  - cbn [foldl]. replace (seen ++ y :: a) with ((seen ++ [y]) ++ a)
      by (by rewrite <- app_assoc).
    by apply IH, Hstep.
Qed.

(** What [np.nanmin] and [np.nanmax] answer. *)
Lemma np_nanmin_least (a : ndarray) (x : float) :
  result (np_nanmin a) = inr x → least_ignoring_nan a x.
Proof.
  destruct a as [|x0 a]; [done|]. cbn. intros [= <-].
  apply (foldl_steps (P := least_ignoring_nan) fmin least_step a [x0] x0).
  destruct (is_nan x0) eqn:Hx.
  - apply is_nan_true in Hx as ->. left. split; [done|].
    by intros y ->%list_elem_of_singleton.
  - apply is_nan_false in Hx. right. split; [by left|]. split; [done|].
    intros y ->%list_elem_of_singleton _. by apply float_leb_refl.
Qed.

Lemma np_nanmax_greatest (a : ndarray) (x : float) :
  result (np_nanmax a) = inr x → greatest_ignoring_nan a x.
Proof.
  destruct a as [|x0 a]; [done|]. cbn. intros [= <-].
  apply (foldl_steps (P := greatest_ignoring_nan) fmax greatest_step a [x0] x0).
  destruct (is_nan x0) eqn:Hx.
  - apply is_nan_true in Hx as ->. left. split; [done|].
    by intros y ->%list_elem_of_singleton.
  - apply is_nan_false in Hx. right. split; [by left|]. split; [done|].
    intros y ->%list_elem_of_singleton _. by apply float_leb_refl.
Qed.

(** ** Geospatial strategies *)

Lemma result_except_ValueError {A} (m h : M A) :
  result (except_ValueError m h) =
  match result m with
  | inl ValueError => result h
  | r => r
  end.
Proof.
  destruct m as [t [[]|a]]; cbn; try done. by destruct h.
Qed.

(** A dataset in which nothing is marked as a latitude has no pair of
    coordinate variables for [find_lat_lon]. *)
Lemma find_lat_lon_without_latitude (ds : XrDataset) :
  Forall names_no_latitude ds → result (find_lat_lon ds) = inl ValueError.
Proof.
  intros Hds.
  assert (Hnav : has_variable ds "nav_lat" = false).
  { unfold has_variable. induction Hds as [|nv ds (_ & Hn & _) _ IH]; [done|].
    cbn. rewrite IH, orb_false_r. by apply String.eqb_neq. }
  assert (Hre : filter (λ n, coord_regex "lat" "latitude" n = true) ds.*1 = []).
  { clear Hnav. induction Hds as [|nv ds (_ & _ & Hr) _ IH]; [done|].
    rewrite fmap_cons, filter_cons_False by congruence. exact IH. }
  unfold find_lat_lon.
  set (step := λ (acc : option string * option string) (nv : string * XrVariable), _).
  assert (Hfold : ∀ acc, (foldl step acc ds).1 = acc.1).
  { clear Hnav Hre. induction Hds as [|nv ds (Hstd & _ & _) _ IH]; intros acc; [done|].
    cbn [foldl]. rewrite IH. unfold step. cbn [fst]. by rewrite Hstd. }
  specialize (Hfold (None, None)).
  destruct (foldl step (None, None) ds) as [lat_name lon_name].
  cbn in Hfold. subst lat_name. cbn [truthy andb].
  rewrite Hnav. cbn [andb]. by rewrite Hre.
Qed.

Lemma result_geospatial (fs : FS) (p : string) :
  result (geospatial fs p) =
  match result (xarray_strategies fs p) with
  | inr bbox => inr bbox
  | inl _ => result (raw_strategy fs p)
  end.
Proof. unfold geospatial. by rewrite result_try_except. Qed.

Lemma result_xarray_strategies (fs : FS) (p : string) (f : NcFile) (ds : XrDataset) :
  fs !! p = Some f → xr_view f = inr ds →
  result (xarray_strategies fs p) = result (xarray_bbox ds).
Proof.
  intros Hf Hds. unfold xarray_strategies, open_xarray.
  by rewrite result_bind, result_open_with, Hf, Hds.
Qed.



Lemma result_bbox_of_arrays (lat_arr lon_arr : ndarray) :
  lat_arr ≠ [] → lon_arr ≠ [] →
  ∃ a b c d,
    result (bbox_of_arrays lat_arr lon_arr) =
      inr {| lat_min := Some a; lat_max := Some b; lon_min := Some c; lon_max := Some d |} ∧
    result (np_nanmin lat_arr) = inr a ∧ result (np_nanmax lat_arr) = inr b ∧
    result (np_nanmin lon_arr) = inr c ∧ result (np_nanmax lon_arr) = inr d.
Proof.
  destruct lat_arr as [|x la]; [done|]. destruct lon_arr as [|y lo]; [done|].
  intros _ _. by eexists _, _, _, _.
Qed.

(** The mean over the stack is taken cell by cell. *)
Lemma columns_lookup (n : nat) (rows : list ndarray) (j : nat) :
  (j < n)%nat → columns n rows !! j = Some (map (λ r, nth j r NaN) rows).
Proof.
  revert rows j. induction n as [|n IH]; intros rows j Hj; [lia|].
  cbn [columns]. destruct j as [|j]; cbn.
  - f_equal. apply map_ext. by intros [|x r].
  - rewrite IH by lia. f_equal. rewrite map_map. apply map_ext.
    intros [|x r]; [by destruct j|done].
Qed.

Lemma np_nanmean_axis0_lookup (r : ndarray) (rest : list ndarray) (j : nat) :
  (j < length r)%nat →
  np_nanmean_axis0 (r :: rest) !! j
  = Some (nanmean_column (map (λ r', nth j r' NaN) (r :: rest))).
Proof.
  intros Hj. unfold np_nanmean_axis0.
  etrans; [apply (list_lookup_fmap nanmean_column)|].
  by rewrite columns_lookup.
Qed.

(** C8, as the code has it.  For a file that xarray opens, in which
    [find_lat_lon] finds no pair of coordinate variables, and which has
    four pixel-corner variables for each axis, of one shape and not empty,
    the bounding box is, for each axis, the least and the greatest value of
    the cell-by-cell mean of the four corner arrays.  Only NaN are left
    out, of the means and of the extrema; an infinite value takes part like
    any other. *)
Theorem corner_fallback_bbox (fs : FS) (p : string) (f : NcFile) (ds : XrDataset)
    (lat_corners lon_corners : list ndarray) :
  fs !! p = Some f →
  xr_view f = inr ds →
  result (find_lat_lon ds) = inl ValueError →
  length (corner_vars "latitude" ds) = 4%nat →
  length (corner_vars "longitude" ds) = 4%nat →
  result (all_values_of ds (corner_vars "latitude" ds) ≫= np_array) = inr lat_corners →
  result (all_values_of ds (corner_vars "longitude" ds) ≫= np_array) = inr lon_corners →
  np_nanmean_axis0 lat_corners ≠ [] →
  np_nanmean_axis0 lon_corners ≠ [] →
  ∃ a b c d,
    result (geospatial fs p) =
      inr {| lat_min := Some a; lat_max := Some b; lon_min := Some c; lon_max := Some d |} ∧
    least_ignoring_nan (np_nanmean_axis0 lat_corners) a ∧
    greatest_ignoring_nan (np_nanmean_axis0 lat_corners) b ∧
    least_ignoring_nan (np_nanmean_axis0 lon_corners) c ∧
    greatest_ignoring_nan (np_nanmean_axis0 lon_corners) d.
Proof.
  intros Hf Hds Hfind Hlat4 Hlon4 Hlat Hlon Hlat_ne Hlon_ne.
  destruct (result_bbox_of_arrays _ _ Hlat_ne Hlon_ne)
    as (a & b & c & d & Hbox & Ha & Hb & Hc & Hd).
  exists a, b, c, d. split.
  - rewrite result_geospatial, (result_xarray_strategies _ _ _ _ Hf Hds).
    unfold xarray_bbox. rewrite result_bind, result_except_ValueError.
    unfold direct_coordinates at 1. rewrite result_bind, Hfind.
    unfold corner_coordinates. rewrite Hlat4, Hlon4. cbn [Nat.eqb andb].
    rewrite result_bind, Hlat, result_bind, Hlon. cbn [result snd mret M_ret fst].
    by rewrite Hbox.
  - auto using np_nanmin_least, np_nanmax_greatest.
Qed.


Section AbsentBox.
Context {du : Dateutil} {xx : Xxhash} {sch : Schema}.



End AbsentBox.

(** ** The properties on the example files *)

(** A second run over the four example files, arriving in another order. *)
Lemma ingest_idempotent_witness :
  ∃ st2,
    result (@ingest dateutil_stamps xxhash_fixed schema_plain example_fs
              [path_D; path_C; path_A; path_B]
              (example_store schema_plain [path_A; path_B; path_C; path_D])) = inr st2 ∧
    st2 = example_store schema_plain [path_A; path_B; path_C; path_D] ∧
    size (products st2)
      = size (products (example_store schema_plain [path_A; path_B; path_C; path_D])) ∧
    size (bbox_index st2)
      = size (bbox_index (example_store schema_plain [path_A; path_B; path_C; path_D])).
Proof.
  apply (@ingest_idempotent dateutil_stamps xxhash_fixed schema_plain example_fs
           [path_A; path_B; path_C; path_D] [path_D; path_C; path_A; path_B] empty_store).
  - vm_compute. reflexivity.
  - intros x. rewrite !elem_of_cons, !elem_of_nil. tauto.
Defined.



(** A run that meets a path that is not there. *)
Lemma missing_file_escapes_witness :
  @extract_metadata dateutil_stamps xxhash_fixed example_fs "/data/gone.nc"
    = ([EvStat "/data/gone.nc"], inl FileNotFoundError) ∧
  (∃ e, result (example_run schema_plain [path_A; "/data/gone.nc"; path_B]) = inl e) ∧
  example_store schema_plain [path_A; "/data/gone.nc"; path_B] = empty_store.
Proof.
  apply (@missing_file_escapes dateutil_stamps xxhash_fixed schema_plain
           example_fs "/data/gone.nc" [path_A; "/data/gone.nc"; path_B] empty_store).
  - vm_compute. reflexivity.
  - apply list_elem_of_further, list_elem_of_here.
Defined.

(** The file of 800 MiB. *)
Lemma size_guard_skips_with_warning_witness :
  @extract_metadata dateutil_stamps xxhash_fixed example_fs path_C
    = ([EvStat path_C; EvStat path_C; EvPrint (TooLarge "C.nc" (800 * 1024 * 1024))],
       inr (Records [] [])) ∧
  never_opened (trace (@extract_metadata dateutil_stamps xxhash_fixed example_fs path_C)).
Proof.
  apply (@size_guard_skips_with_warning dateutil_stamps xxhash_fixed example_fs path_C file_C).
  - vm_compute. reflexivity.
  - vm_compute. reflexivity.
Defined.

(** C5 to the letter fails on the file of 800 MiB: a line is printed. *)
Lemma size_guard_not_silent :
  ¬ @skips_silently dateutil_stamps xxhash_fixed example_fs path_C.
Proof.
  intros (_ & _ & Hsilent).
  apply (Hsilent (TooLarge "C.nc" (800 * 1024 * 1024))).
  assert (Ht : trace (@extract_metadata dateutil_stamps xxhash_fixed example_fs path_C)
               = [EvStat path_C; EvStat path_C;
                  EvPrint (TooLarge "C.nc" (800 * 1024 * 1024))])
    by (vm_compute; reflexivity).
  rewrite Ht. apply list_elem_of_further, list_elem_of_further, list_elem_of_here.
Qed.

(** Two files, in the two orders. *)
Lemma ingest_order_up_to_identifiers_witness :
  ∃ st2,
    result (example_run schema_plain [path_D; path_A]) = inr st2 ∧
    catalogue (example_store schema_plain [path_A; path_D]) = catalogue st2.
Proof.
  apply (@ingest_order_up_to_identifiers dateutil_stamps xxhash_fixed schema_plain
           example_fs [path_A; path_D] [path_D; path_A] empty_store).
  - apply wf_empty_store.
  - apply NoDup_cons. split; [|apply NoDup_singleton].
    intros Hin%list_elem_of_singleton. vm_compute in Hin. discriminate.
  - apply Permutation_swap.
  - intros p mb _ _. reflexivity.
  - vm_compute. reflexivity.
Defined.

(** C9 to the letter fails on two files: the one that arrives first takes
    identifier 1, so the rows of the two runs differ. *)
Lemma arrival_order_changes_identifiers :
  ¬ same_rows (example_store schema_plain [path_A; path_D])
              (example_store schema_plain [path_D; path_A]).
Proof.
  intros [Hproducts _].
  apply (f_equal (λ t, fst <$> t !! (path_D, "sst"))) in Hproducts.
  vm_compute in Hproducts. discriminate.
Qed.



(** The file with pixel corners only. *)
Lemma corner_fallback_bbox_witness :
  ∃ a b c d,
    result (geospatial example_fs path_F) =
      inr {| lat_min := Some a; lat_max := Some b; lon_min := Some c; lon_max := Some d |} ∧
    least_ignoring_nan (np_nanmean_axis0 lat_corners_F) a ∧
    greatest_ignoring_nan (np_nanmean_axis0 lat_corners_F) b ∧
    least_ignoring_nan (np_nanmean_axis0 lon_corners_F) c ∧
    greatest_ignoring_nan (np_nanmean_axis0 lon_corners_F) d.
Proof.
  apply (corner_fallback_bbox example_fs path_F file_F xr_F lat_corners_F lon_corners_F).
  - vm_compute. reflexivity.
  - reflexivity.
  - vm_compute. reflexivity.
  - vm_compute. reflexivity.
  - vm_compute. reflexivity.
  - vm_compute. reflexivity.
  - vm_compute. reflexivity.
  - vm_compute. discriminate.
  - vm_compute. discriminate.
Defined.

(** C8 to the letter fails on the file whose corners hold an infinite
    value: it is not left out, the greatest latitude is infinite. *)
Lemma corner_fallback_keeps_infinities :
  result (geospatial example_fs path_F)
    ≠ result (corner_bbox_ignoring_nonfinite lat_corners_F lon_corners_F) ∧
  result (geospatial example_fs path_F)
    = inr {| lat_min := Some (Finite 1); lat_max := Some PosInf;
             lon_min := Some (Finite 6); lon_max := Some (Finite 7) |} ∧
  result (corner_bbox_ignoring_nonfinite lat_corners_F lon_corners_F)
    = inr {| lat_min := Some (Finite 1); lat_max := Some (Finite 2);
             lon_min := Some (Finite 6); lon_max := Some (Finite 7) |}.
Proof.
  split; [|split]; [|vm_compute; reflexivity|vm_compute; reflexivity].
  vm_compute. discriminate.
Qed.

(** C3, where the code departs from it.  When the select finds no row
    (here the schema refuses the record of [path_E], which has no time),
    the loop goes on to the next record without taking a bounding box from
    the deque: the deques are out of step from there on.  The product of
    the next record, of [path_A], gets the bounding box of [path_E], and
    a bounding box of [path_A] is left in the deque after the flush. *)
Theorem skipped_record_shifts_the_boxes :
  @pairs_of dateutil_stamps xxhash_fixed example_fs path_E
    = zip metas_E [box_of 60 70 20 30] ∧
  @pairs_of dateutil_stamps xxhash_fixed example_fs path_A
    = zip metas_A [box_of 35 45 (-10) 4; box_of 35 45 (-10) 4] ∧
  ∃ st',
    @_flush schema_dated (metas_E ++ metas_A)
      [box_of 60 70 20 30; box_of 35 45 (-10) 4; box_of 35 45 (-10) 4] empty_store
      = mret ([box_of 35 45 (-10) 4], st') ∧
    result (example_run schema_dated [path_E; path_A]) = inr st' ∧
    products st' !! (path_E, "sst") = None ∧
    fst <$> products st' !! (path_A, "wind_speed") = Some 1 ∧
    bbox_index st' !! 1 = Some (box_of 60 70 20 30).
Proof.
  split; [vm_compute; reflexivity|]. split; [vm_compute; reflexivity|].
  exists (example_store schema_dated [path_E; path_A]).
  repeat split; vm_compute; reflexivity.
Qed.

(** * Further properties *)

(** ** The loader, one turn at a time *)

Section LoaderTurns.
Context {sch : Schema}.

Lemma result_flush_app (ms1 ms2 : list Meta) (bs : list BBox) (st : Store) :
  result (_flush (ms1 ++ ms2) bs st) =
  match result (_flush ms1 bs st) with
  | inl e => inl e
  | inr flushed => result (_flush ms2 flushed.1 flushed.2)
  end.
Proof.
  revert bs st. induction ms1 as [|meta ms1 IH]; intros bs st; [done|].
  cbn [_flush app]. destruct (select_id _ _); [|apply IH].
  destruct bs as [|b bs]; [done|apply IH].
Qed.

(** Boxes added at the far end of the deque are left there. *)
Lemma flush_more_boxes (ms : list Meta) (bs extra : list BBox) (st : Store) rest st' :
  result (_flush ms bs st) = inr (rest, st') →
  result (_flush ms (bs ++ extra) st) = inr (rest ++ extra, st').
Proof.
  revert bs st. induction ms as [|meta ms IH]; intros bs st.
  - cbn. by intros [= <- <-].
  - cbn [_flush]. destruct (select_id _ _); [|apply IH].
    destruct bs as [|b bs]; [done|]. apply IH.
Qed.

Lemma exec_ins_bbox_keeps (i j : Z) (b b0 : BBox) (st : Store) :
  bbox_index st !! j = Some b0 → bbox_index (exec_ins_bbox i b st) !! j = Some b0.
Proof.
  intros Hj. unfold exec_ins_bbox. destruct (bbox_index st !! i) eqn:Hi; [done|].
  cbn. rewrite lookup_insert_ne; [done|]. intros ->. congruence.
Qed.

Lemma flush_step_load_pair (meta : Meta) (b : BBox) (st : Store) :
  load_pair st (meta, b) =
  match select_id (key_of meta) (exec_ins_product meta st) with
  | Some prod_id => exec_ins_bbox prod_id b (exec_ins_product meta st)
  | None => exec_ins_product meta st
  end.
Proof. done. Qed.

Lemma load_pair_keeps (st : Store) (mb : Meta * BBox) :
  (∀ k r, products st !! k = Some r → products (load_pair st mb) !! k = Some r) ∧
  (∀ i b, bbox_index st !! i = Some b → bbox_index (load_pair st mb) !! i = Some b).
Proof.
  split; [intros k r; apply load_pair_products_mono|].
  intros i b Hi. unfold load_pair. destruct (select_id _ _).
  - apply exec_ins_bbox_keeps. by rewrite exec_ins_product_bbox.
  - by rewrite exec_ins_product_bbox.
Qed.

Lemma load_pair_referenced (st : Store) (mb : Meta * BBox) :
  referenced st → referenced (load_pair st mb).
Proof.
  intros Href i Hi. destruct mb as [meta b]. rewrite flush_step_load_pair in *.
  destruct (select_id _ _) as [j|] eqn:Hsel.
  - rewrite exec_ins_bbox_products. unfold exec_ins_bbox in Hi.
    destruct (bbox_index (exec_ins_product meta st) !! j) eqn:Hj.
    + rewrite exec_ins_product_bbox in Hi. destruct (Href i Hi) as (k & m & Hk).
      exists k, m. by apply exec_ins_product_mono.
    + cbn in Hi. destruct (decide (j = i)) as [->|Hne].
      * unfold select_id in Hsel.
        destruct (products (exec_ins_product meta st) !! key_of meta)
          as [[i' m]|] eqn:Hk; [|done].
        cbn in Hsel. injection Hsel as ->. by exists (key_of meta), m.
      * rewrite lookup_insert_ne, exec_ins_product_bbox in Hi by done.
        destruct (Href i Hi) as (k & m & Hk).
        exists k, m. by apply exec_ins_product_mono.
  - rewrite exec_ins_product_bbox in Hi. destruct (Href i Hi) as (k & m & Hk).
    exists k, m. by apply exec_ins_product_mono.
Qed.

(** Every turn of the loop of [_flush] is [load_pair] with the box at the
    head of the deque (with any box when the select finds no row, since
    none is taken then): what [load_pair] keeps, a flush keeps. *)
Lemma flush_invariant (P : Store → Prop) (ms : list Meta) (bs : list BBox) (st : Store)
    rest st' :
  (∀ s mb, P s → P (load_pair s mb)) →
  P st → result (_flush ms bs st) = inr (rest, st') → P st'.
Proof.
  intros Hstep. revert bs st. induction ms as [|meta ms IH]; intros bs st HP.
  - cbn. by intros [= <- <-].
  - cbn [_flush]. fold (key_of meta).
    destruct (select_id _ _) as [i|] eqn:Hsel.
    + destruct bs as [|b bs]; [done|]. apply IH.
      pose proof (Hstep st (meta, b) HP) as H. by rewrite flush_step_load_pair, Hsel in H.
    + apply IH.
      pose proof (Hstep st (meta, no_bbox) HP) as H.
      by rewrite flush_step_load_pair, Hsel in H.
Qed.

(** X10.  The deque of boxes running short.  When the select finds a row for
    every record (the schema takes it, or its key is there) and there are
    fewer boxes than records, [popleft] fails on the empty deque: the flush
    ends by [IndexError]. *)
Theorem flush_runs_out_of_boxes (metas : list Meta) (bboxes : list BBox) (st : Store) :
  Forall (resolved st) metas →
  (length bboxes < length metas)%nat →
  result (_flush metas bboxes st) = inl IndexError.
Proof.
  revert bboxes st. induction metas as [|meta metas IH]; intros bboxes st Hres Hlen.
  - cbn in Hlen. lia.
  - apply Forall_cons in Hres as [Hm Hres].
    cbn [_flush]. fold (key_of meta).
    destruct (resolved_select _ _ Hm) as [i Hi]. rewrite Hi.
    destruct bboxes as [|b bboxes]; [done|]. cbn in Hlen.
    apply IH; [|lia].
    eapply Forall_impl; [exact Hres|]. intros m Hr.
    pose proof (resolved_load_pair st (meta, b) m Hr) as Hr'.
    by rewrite flush_step_load_pair, Hi in Hr'.
Qed.

(** X9.  New records, each with its own box.  On a well-formed store, a
    flush of records that the schema takes, of keys that differ from one
    another and that the store does not have, with as many boxes as records,
    uses up the boxes and leaves every record in the catalogue with the box
    that had its place in the deque. *)
Theorem flush_pairs_each_record_with_its_box (metas : list Meta) (bboxes : list BBox)
    (st : Store) :
  wf st →
  NoDup (key_of <$> metas) →
  (∀ m, m ∈ metas → accepts m = true ∧ products st !! key_of m = None) →
  length metas = length bboxes →
  ∃ st', result (_flush metas bboxes st) = inr ([], st') ∧
         ∀ n m b, metas !! n = Some m → bboxes !! n = Some b →
                  catalogue st' !! key_of m = Some (m, Some b).
Proof.
  intros Hwf Hnd Hnew Hlen.
  assert (Hres : Forall (resolved st) metas).
  { apply Forall_forall. intros m Hm. left. by apply Hnew. }
  exists (foldl load_pair st (zip metas bboxes)). split.
  - rewrite flush_aligned by (done || lia). rewrite result_ret.
    by rewrite drop_ge by lia.
  - intros n m b Hm Hb.
    rewrite catalogue_foldl_load_pair; [|done|].
    2:{ apply Forall_forall. intros [m' b'] Hin. left. cbn.
        apply elem_of_zip_l in Hin. by apply Hnew. }
    apply (foldl_record_pair_fresh (zip metas bboxes) (catalogue st)) with (mb := (m, b)).
    + replace ((λ mb : Meta * BBox, key_of mb.1) <$> zip metas bboxes)
        with (key_of <$> metas); [done|].
      rewrite <- (fst_zip metas bboxes) at 1 by lia.
      by rewrite <- list_fmap_compose.
    + intros [m' b'] Hin. cbn. apply elem_of_zip_l in Hin.
      unfold catalogue. rewrite lookup_fmap. by destruct (Hnew m' Hin) as [_ ->].
    + apply list_elem_of_lookup. exists n. apply lookup_zip_with_Some. by exists m, b.
Qed.

(** Two well-formed stores with one catalogue are told apart by no flush:
    both flushes raise the same, or both return, with the same boxes left
    and again one catalogue. *)
Lemma flush_catalogue (ms : list Meta) (bs : list BBox) (st st' : Store) :
  wf st → wf st' → catalogue st = catalogue st' →
  match result (_flush ms bs st), result (_flush ms bs st') with
  | inr (r1, s1), inr (r2, s2) => r1 = r2 ∧ catalogue s1 = catalogue s2
  | inl e1, inl e2 => e1 = e2
  | _, _ => False
  end.
Proof.
  revert bs st st'. induction ms as [|meta ms IH]; intros bs st st' Hwf Hwf' Hcat.
  - done.
  - cbn [_flush]. fold (key_of meta).
    assert (Hdom : products st !! key_of meta = None ↔ products st' !! key_of meta = None).
    { assert (H : catalogue st !! key_of meta = None ↔ catalogue st' !! key_of meta = None)
        by (by rewrite Hcat).
      unfold catalogue in H. by rewrite !lookup_fmap, !fmap_None in H. }
    destruct (select_id (key_of meta) (exec_ins_product meta st)) as [i|] eqn:Hsel.
    + assert (Hres : resolved st meta).
      { destruct (products st !! key_of meta) eqn:Hk; [right; by eexists|].
        left. destruct (accepts meta) eqn:Ha; [done|].
        assert (select_id (key_of meta) (exec_ins_product meta st) = None)
          by (by apply select_after_insert). congruence. }
      assert (Hres' : resolved st' meta).
      { destruct Hres as [?|[r Hr]]; [by left|]. right.
        destruct (products st' !! key_of meta) eqn:Hk; [done|].
        assert (products st !! key_of meta = None) by (by apply Hdom). congruence. }
      destruct (resolved_select _ _ Hres') as [i' Hsel']. rewrite Hsel'.
      destruct bs as [|b bs]; [done|].
      pose proof (flush_step_load_pair meta b st) as E. rewrite Hsel in E.
      pose proof (flush_step_load_pair meta b st') as E'. rewrite Hsel' in E'.
      rewrite <- E, <- E'. apply IH; [by apply wf_load_pair|by apply wf_load_pair|].
      rewrite !catalogue_load_pair by done. by rewrite Hcat.
    + apply select_after_insert in Hsel as Hno. destruct Hno as [Hnone Hrej].
      assert (Hsel' : select_id (key_of meta) (exec_ins_product meta st') = None).
      { apply select_after_insert. split; [by apply Hdom|done]. }
      rewrite Hsel', !exec_ins_product_refused by done. by apply IH.
Qed.

End LoaderTurns.

(** ** A run as one flush *)

Section OneFlush.
Context {du : Dateutil} {xx : Xxhash} {sch : Schema}.

Lemma present_returns (fs : FS) (arrival : list string) :
  (∀ p, p ∈ arrival → is_Some (fs !! p)) →
  ∀ p, p ∈ arrival → ∃ o, result (extract_metadata fs p) = inr o.
Proof.
  intros Hall p Hp. destruct (Hall p Hp) as [f Hf]. by eapply extract_metadata_catches.
Qed.


(** What the loop has written and what it still holds amount to one flush
    of all the records met so far. *)
Lemma ingest_loop_one_flush (fs : FS) (arrival : list string) bm bb st0 :
  (∀ p, p ∈ arrival → ∃ o, result (extract_metadata fs p) = inr o) →
  (length bm ≤ length bb)%nat →
  ∃ bm' bb' st',
    result (ingest_loop fs (bm, bb, st0) arrival) = inr (bm', bb', st') ∧
    (length bm' ≤ length bb')%nat ∧
    result (_flush bm' bb' st') =
    result (_flush (bm ++ (stream fs arrival).*1) (bb ++ (stream fs arrival).*2) st0).
Proof.
  revert bm bb st0. induction arrival as [|p arrival IH]; intros bm bb st0 Hret Hlen.
  - exists bm, bb, st0. cbn [ingest_loop]. rewrite result_ret.
    unfold stream. cbn. by rewrite !app_nil_r.
  - rewrite result_ingest_loop_cons, result_ingest_step.
    assert (Hret' : ∀ q, q ∈ arrival → ∃ o, result (extract_metadata fs q) = inr o).
    { intros q Hq. apply Hret. by right. }
    unfold stream. rewrite bind_cons, !fmap_app, !app_assoc. fold (stream fs arrival).
    destruct (Hret p) as [o Ho]; [by left|].
    unfold pairs_of at 1 2. rewrite Ho.
    destruct o as [metas bboxes|exc].
    + cbn zeta. set (pairs := zip metas bboxes).
      pose proof (zip_sides_length metas bboxes) as Hz. fold pairs in Hz.
      destruct (_ <=? _)%nat.
      * destruct (flush_returns (bm ++ pairs.*1) (bb ++ pairs.*2) st0)
          as (rest & st1 & Hfl & _); [rewrite !length_app; lia|].
        rewrite Hfl. cbn [fst snd].
        destruct (IH [] rest st1 Hret') as (bm' & bb' & st' & Hloop & Hl & Heq); [cbn; lia|].
        exists bm', bb', st'. split; [done|]. split; [done|].
        rewrite Heq, (result_flush_app (bm ++ pairs.*1)).
        by rewrite (flush_more_boxes _ _ _ _ _ _ Hfl).
      * apply IH; [done|rewrite !length_app; lia].
    + cbn [fmap list_fmap]. rewrite !app_nil_r. by apply IH.
Qed.

(** A run in which every extraction returns commits what one flush of all
    its records leaves. *)
Lemma ingest_one_flush (fs : FS) (arrival : list string) (st : Store) :
  (∀ p, p ∈ arrival → ∃ o, result (extract_metadata fs p) = inr o) →
  ∃ rest st',
    result (_flush (stream fs arrival).*1 (stream fs arrival).*2 st) = inr (rest, st') ∧
    result (ingest fs arrival st) = inr st'.
Proof.
  intros Hret.
  destruct (ingest_loop_one_flush fs arrival [] [] st Hret)
    as (bm & bb & st1 & Hloop & Hlen & Heq); [done|].
  destruct (flush_returns bm bb st1 Hlen) as (rest & st' & Hfl & _).
  exists rest, st'. split.
  - cbn [app] in Heq. by rewrite <- Heq.
  - rewrite result_ingest, Hloop. cbn [fst snd]. by rewrite Hfl.
Qed.

Lemma ingest_committed_one_flush (fs : FS) (arrival : list string) (st st1 : Store) :
  result (ingest fs arrival st) = inr st1 →
  ∃ rest, result (_flush (stream fs arrival).*1 (stream fs arrival).*2 st) = inr (rest, st1).
Proof.
  intros Hrun.
  destruct (ingest_one_flush fs arrival st) as (rest & st' & Hfl & Hrun').
  { intros p Hp. by apply (ingest_saturates _ _ _ _ Hrun). }
  exists rest. congruence.
Qed.

(** X1.  The size of the batches does not show.  When every file of the run
    is there, the run commits, and what it commits is the store that one
    flush of all the records of the run, in their order of arrival, with all
    their boxes, leaves: flushing every 500 records or once at the end comes
    to the same. *)
Theorem ingest_is_one_flush (fs : FS) (arrival : list string) (st : Store) :
  (∀ p, p ∈ arrival → is_Some (fs !! p)) →
  ∃ rest st',
    result (_flush (stream fs arrival).*1 (stream fs arrival).*2 st) = inr (rest, st') ∧
    result (ingest fs arrival st) = inr st'.
Proof.
  intros Hall.
  destruct (ingest_loop_one_flush fs arrival [] [] st (present_returns _ _ Hall))
    as (bm & bb & st1 & Hloop & Hlen & Heq); [done|].
  destruct (flush_returns bm bb st1 Hlen) as (rest & st' & Hfl & _).
  exists rest, st'. split.
  - cbn [app] in Heq. by rewrite <- Heq.
  - rewrite result_ingest, Hloop. cbn [fst snd]. by rewrite Hfl.
Qed.

(** X2.  A file that sends no record to the loader (it is over the size
    guard, it has no variable of the alias table, or its extraction failed)
    counts for nothing in what the run commits: the run with it and the run
    without it end the same. *)
Theorem files_without_records_do_not_count (fs : FS) (l1 l2 : list string) (p : string)
    (st : Store) :
  (∀ q, q ∈ l1 ++ p :: l2 → is_Some (fs !! q)) →
  pairs_of fs p = [] →
  result (ingest fs (l1 ++ p :: l2) st) = result (ingest fs (l1 ++ l2) st).
Proof.
  intros Hall Hp.
  destruct (ingest_one_flush fs (l1 ++ p :: l2) st) as (rest & st' & Hfl & ->).
  { by apply present_returns. }
  destruct (ingest_one_flush fs (l1 ++ l2) st) as (rest2 & st2 & Hfl2 & ->).
  { apply present_returns. intros q Hq. apply Hall.
    apply elem_of_app in Hq as [?|?]; apply elem_of_app; [by left|right; by right]. }
  assert (Hs : stream fs (l1 ++ p :: l2) = stream fs (l1 ++ l2)).
  { unfold stream. by rewrite !bind_app, bind_cons, Hp. }
  rewrite Hs in Hfl. congruence.
Qed.

(** What every turn of the loader keeps, a run that commits keeps. *)
Lemma ingest_invariant (P : Store → Prop) (fs : FS) (arrival : list string)
    (st st1 : Store) :
  (∀ s mb, P s → P (load_pair s mb)) →
  P st → result (ingest fs arrival st) = inr st1 → P st1.
Proof.
  intros Hstep HP Hrun.
  destruct (ingest_committed_one_flush _ _ _ _ Hrun) as [rest Hfl].
  by eapply flush_invariant.
Qed.

(** X3.  The tables are append-only under the pipeline.  A run that commits
    leaves every row it found as it was: a product keeps its identifier and
    its columns (so a file that changed on disk is not indexed again under
    the same key: its size and checksum in the store stay those of the first
    scan), and a bounding box keeps its four values. *)
Theorem ingest_never_rewrites (fs : FS) (arrival : list string) (st st1 : Store) :
  result (ingest fs arrival st) = inr st1 →
  (∀ k r, products st !! k = Some r → products st1 !! k = Some r) ∧
  (∀ i b, bbox_index st !! i = Some b → bbox_index st1 !! i = Some b).
Proof.
  apply (ingest_invariant
    (λ s, (∀ k r, products st !! k = Some r → products s !! k = Some r) ∧
          (∀ i b, bbox_index st !! i = Some b → bbox_index s !! i = Some b))); [|done].
  intros s mb [Hp Hb]. destruct (load_pair_keeps s mb) as [Hp' Hb']. split; auto.
Qed.

(** X4.  A run keeps the store in order: identifiers stay below the counter
    and belong to one product each, and every row of [bbox_index] is still
    the row of a product. *)
Theorem ingest_keeps_integrity (fs : FS) (arrival : list string) (st st1 : Store) :
  wf st → referenced st →
  result (ingest fs arrival st) = inr st1 →
  wf st1 ∧ referenced st1.
Proof.
  intros Hwf Href.
  apply (ingest_invariant (λ s, wf s ∧ referenced s)); [|done].
  intros s mb [? ?]. split; [by apply wf_load_pair|by apply load_pair_referenced].
Qed.

(** X5.  After a run that commits, every record of every file of the run
    that the schema takes is a product of the store, under the path of its
    file and its product type, and that product has its row in [bbox_index]. *)
Theorem every_record_of_a_run_is_stored (fs : FS) (arrival : list string) (st st1 : Store)
    (p : string) (mb : Meta * BBox) :
  result (ingest fs arrival st) = inr st1 →
  p ∈ arrival → mb ∈ pairs_of fs p → accepts mb.1 = true →
  ∃ i m b, products st1 !! (p, product_type mb.1) = Some (i, m) ∧
           bbox_index st1 !! i = Some b.
Proof.
  intros Hrun Hp Hmb Hacc.
  destruct (ingest_saturates _ _ _ _ Hrun p Hp) as [_ Hsat].
  destruct (Hsat mb.1) as [Hprod Hcov].
  { apply list_elem_of_fmap. by exists mb. }
  destruct (Hprod Hacc) as [[i m] Hk]. destruct (Hcov i m Hk) as [b Hb].
  exists i, m, b. split; [|done].
  destruct (pairs_of_keys fs p) as [_ Hpath]. rewrite <- (Hpath mb Hmb). exact Hk.
Qed.


(** X7.  Identifiers do not leak into what a run loads.  From two
    well-formed stores that show one catalogue (the same products with the
    same boxes, whatever their identifiers and counters), runs over the same
    files commit stores that show one catalogue again; this holds also when
    the schema refuses records. *)
Theorem ingest_respects_catalogue (fs : FS) (arrival : list string) (st st' : Store) :
  (∀ p, p ∈ arrival → is_Some (fs !! p)) →
  wf st → wf st' → catalogue st = catalogue st' →
  ∃ st1 st1', result (ingest fs arrival st) = inr st1 ∧
              result (ingest fs arrival st') = inr st1' ∧
              catalogue st1 = catalogue st1'.
Proof.
  intros Hall Hwf Hwf' Hcat.
  destruct (ingest_one_flush fs arrival st (present_returns _ _ Hall))
    as (rest & st1 & Hfl & Hrun).
  destruct (ingest_one_flush fs arrival st' (present_returns _ _ Hall))
    as (rest' & st1' & Hfl' & Hrun').
  exists st1, st1'. split; [done|]. split; [done|].
  pose proof (flush_catalogue (stream fs arrival).*1 (stream fs arrival).*2 st st'
                Hwf Hwf' Hcat) as H.
  rewrite Hfl, Hfl' in H. by destruct H.
Qed.

End OneFlush.

(** ** The desktop application and the store *)

Lemma wf_reset_database (st : Store) : wf (reset_database st).
Proof.
  split; [|split]; cbn.
  - intros k i m Hk. by rewrite lookup_empty in Hk.
  - intros k1 k2 i m1 m2 Hk. by rewrite lookup_empty in Hk.
  - intros i [b Hb]. by rewrite lookup_empty in Hb.
Qed.

Section Reset.
Context {du : Dateutil} {xx : Xxhash} {sch : Schema}.

(** X20.  Resetting then indexing is indexing from scratch: whatever the
    store held, a run after [reset_database] shows the catalogue that the
    same run shows on a store that never held anything. *)
Theorem reset_then_ingest_as_fresh (fs : FS) (arrival : list string) (st : Store) :
  (∀ p, p ∈ arrival → is_Some (fs !! p)) →
  ∃ st1 st2, result (ingest fs arrival (reset_database st)) = inr st1 ∧
             result (ingest fs arrival empty_store) = inr st2 ∧
             catalogue st1 = catalogue st2.
Proof.
  intros Hall.
  destruct (ingest_one_flush fs arrival (reset_database st) (present_returns _ _ Hall))
    as (rest & st1 & Hfl & Hrun).
  destruct (ingest_one_flush fs arrival empty_store (present_returns _ _ Hall))
    as (rest' & st2 & Hfl' & Hrun').
  exists st1, st2. split; [done|]. split; [done|].
  pose proof (flush_catalogue (stream fs arrival).*1 (stream fs arrival).*2
                (reset_database st) empty_store (wf_reset_database st)
                wf_empty_store eq_refl) as H.
  rewrite Hfl, Hfl' in H. by destruct H.
Qed.

End Reset.

Lemma wf_delete_item (st : Store) (i : Z) : wf st → wf (delete_item i st).
Proof.
  intros (Hlt & Hinj & Hbb). split; [|split]; cbn.
  - intros k' j m' [Hk' _]%map_lookup_filter_Some. by eapply Hlt.
  - intros k1 k2 j m1 m2 [H1 _]%map_lookup_filter_Some [H2 _]%map_lookup_filter_Some.
    by eapply Hinj.
  - intros j [b Hb]. destruct (decide (j = i)) as [->|Hne].
    + by rewrite lookup_delete_eq in Hb.
    + rewrite lookup_delete_ne in Hb by done. apply Hbb. by eexists.
Qed.

(** X21.  Removing the item whose file is gone removes that product and its
    bounding box, and nothing else: on a well-formed store the catalogue
    loses the one key of the item, the store stays well formed, and no row
    of [bbox_index] is left without its product. *)
Theorem delete_item_removes_one_product (st : Store) (k : string * string) (i : Z)
    (m : Meta) :
  wf st → products st !! k = Some (i, m) →
  catalogue (delete_item i st) = delete k (catalogue st) ∧
  wf (delete_item i st) ∧
  (referenced st → referenced (delete_item i st)).
Proof.
  intros (Hlt & Hinj & Hbb) Hk. split; [|split].
  - apply map_eq. intros k'. unfold catalogue, delete_item. cbn.
    rewrite lookup_fmap. destruct (decide (k' = k)) as [->|Hne].
    + rewrite lookup_delete_eq.
      rewrite (proj2 (map_lookup_filter_None _ _ _)); [done|].
      right. intros [j m'] Hk'. cbn. rewrite Hk in Hk'. injection Hk' as <- <-. tauto.
    + rewrite lookup_delete_ne, lookup_fmap by done.
      destruct (products st !! k') as [[j m']|] eqn:Hk'; cbn.
      * assert (Hji : j ≠ i).
        { intros ->. apply Hne. by eapply Hinj. }
        rewrite (proj2 (map_lookup_filter_Some _ _ _ _)) by done. cbn.
        by rewrite lookup_delete_ne.
      * rewrite (proj2 (map_lookup_filter_None _ _ _)); [done|]. by left.
  - by apply wf_delete_item.
  - intros Href j [b Hb]. cbn in Hb. destruct (decide (j = i)) as [->|Hne].
    + by rewrite lookup_delete_eq in Hb.
    + rewrite lookup_delete_ne in Hb by done.
      destruct (Href j) as (k' & m' & Hk'); [by eexists|].
      exists k', m'. cbn. by apply map_lookup_filter_Some.
Qed.

(** ** The viewer and the variables of a file *)

Lemma walk_groups_variables (g : Group) (v : string) :
  v ∈ walk_all_variables g ↔ v ∈ (walk_groups g ≫= group_variables).*1.
Proof.
  induction g as [vars subs IH] using Group_nested_ind.
  cbn [walk_all_variables walk_groups].
  set (below := fix in_subgroups (subs : list (string * Group)) : gset string :=
         match subs with
         | [] => ∅
         | (_, subgroup) :: rest => walk_all_variables subgroup ∪ in_subgroups rest
         end).
  set (groups_below := fix in_subgroups (subs : list (string * Group)) : list Group :=
         match subs with
         | [] => []
         | (_, g) :: rest => walk_groups g ++ in_subgroups rest
         end).
  rewrite bind_cons, fmap_app, elem_of_app, elem_of_union, elem_of_list_to_set.
  cbn [group_variables].
  assert (Hbelow : v ∈ below subs ↔ v ∈ (groups_below subs ≫= group_variables).*1).
  { induction subs as [|[name sub] subs IHs]; cbn.
    - split; [set_solver|]. intros Hin. by apply elem_of_nil in Hin.
    - apply Forall_cons in IH as [Hsub Hrest]. cbn in Hsub.
      rewrite bind_app, fmap_app, elem_of_app, elem_of_union, Hsub, (IHs Hrest). done. }
  by rewrite Hbelow.
Qed.

Lemma find_var_finds_declared (g : Group) (v : string) :
  v ∈ walk_all_variables g →
  ∃ n var, find_var g v = mret var ∧ lower n = lower v ∧
           (n, var) ∈ walk_groups g ≫= group_variables.
Proof.
  intros Hv. apply walk_groups_variables in Hv.
  apply list_elem_of_fmap in Hv as ([n a] & -> & Hin). cbn [fst].
  unfold find_var.
  pose proof (list_elem_of_filter
                (λ nv : string * ndarray, String.eqb (lower nv.1) (lower n) = true)
                (walk_groups g ≫= group_variables)) as Hfilter.
  assert (Hf : (n, a) ∈ filter (λ nv : string * ndarray,
                                  String.eqb (lower nv.1) (lower n) = true)
                               (walk_groups g ≫= group_variables)).
  { apply Hfilter. split; [|done]. cbn. apply String.eqb_refl. }
  destruct (filter _ _) as [|[n' a'] l]; [by apply elem_of_nil in Hf|].
  destruct (proj1 (Hfilter (n', a'))) as [Hn' Hin']; [by left|].
  exists n', a'. split; [done|]. split; [|done]. by apply String.eqb_eq.
Qed.

Section Viewer.
Context {du : Dateutil} {xx : Xxhash}.

(** X22.  What the pipeline indexes, the viewer finds.  For every record of
    a file, [find_var] on the root group of that file and the product type
    of the record raises no [KeyError]: it returns the values of a variable
    declared in the file whose name is the product type up to case (the
    first such variable in the order of [walk_groups], which need not be the
    one the record was made for when two names differ by case only). *)
Theorem indexed_variables_are_found (fs : FS) (p : string) (f : NcFile) (nc : Dataset)
    (metas : list Meta) (bboxes : list BBox) (m : Meta) :
  fs !! p = Some f →
  nc_view f = inr nc →
  result (extract_metadata fs p) = inr (Records metas bboxes) →
  m ∈ metas →
  ∃ n var, find_var (root nc) (product_type m) = mret var ∧
           lower n = lower (product_type m) ∧
           (n, var) ∈ walk_groups (root nc) ≫= group_variables.
Proof.
  intros Hf Hnc Hres Hm.
  destruct (extract_metadata_records _ _ _ _ _ Hf Hres)
    as [[-> _]|(nc' & head & bbox & Hnc' & _ & _ & Heq)].
  { by apply elem_of_nil in Hm. }
  rewrite Hnc in Hnc'. injection Hnc' as <-.
  unfold records_of in Heq. injection Heq as -> _.
  apply list_elem_of_fmap in Hm as (v & -> & Hv). cbn [product_type meta_of].
  apply elem_of_matched_vars in Hv as [Hv _]. by apply find_var_finds_declared.
Qed.

End Viewer.

(** ** The bounding box of a file *)

Lemma extrema_in_order (a : ndarray) (lo hi : float) :
  result (np_nanmin a) = inr lo → result (np_nanmax a) = inr hi → in_order lo hi.
Proof.
  intros Hlo%np_nanmin_least Hhi%np_nanmax_greatest.
  destruct Hlo as [[-> Hall]|(Hin & Hnn & Hle)].
  - destruct Hhi as [[-> _]|(Hin' & Hnn' & _)]; [by left|].
    by apply Hall in Hin'.
  - destruct Hhi as [[-> Hall]|(Hin' & Hnn' & Hge)].
    + by apply Hall in Hin.
    + right. by apply Hle.
Qed.

Lemma bbox_of_arrays_inv (lat_arr lon_arr : ndarray) (b : BBox) :
  result (bbox_of_arrays lat_arr lon_arr) = inr b →
  ∃ lat_lo lat_hi lon_lo lon_hi,
    b = {| lat_min := Some lat_lo; lat_max := Some lat_hi;
           lon_min := Some lon_lo; lon_max := Some lon_hi |} ∧
    result (np_nanmin lat_arr) = inr lat_lo ∧ result (np_nanmax lat_arr) = inr lat_hi ∧
    result (np_nanmin lon_arr) = inr lon_lo ∧ result (np_nanmax lon_arr) = inr lon_hi.
Proof.
  unfold bbox_of_arrays. rewrite result_bind.
  destruct (result (np_nanmin lat_arr)) as [e|a]; [done|]. rewrite result_bind.
  destruct (result (np_nanmax lat_arr)) as [e|b']; [done|]. rewrite result_bind.
  destruct (result (np_nanmin lon_arr)) as [e|c]; [done|]. rewrite result_bind.
  destruct (result (np_nanmax lon_arr)) as [e|d]; [done|].
  rewrite result_ret. intros [= <-]. by exists a, b', c, d.
Qed.


(** Where the box of a file comes from: no array at all, or the extrema
    of a latitude array and of a longitude array. *)
Lemma geospatial_inv (fs : FS) (p : string) (b : BBox) :
  result (geospatial fs p) = inr b →
  b = no_bbox ∨ ∃ lat_arr lon_arr, result (bbox_of_arrays lat_arr lon_arr) = inr b.
Proof.
  rewrite result_geospatial.
  destruct (result (xarray_strategies fs p)) as [e|b'] eqn:Hxr.
  - unfold raw_strategy. rewrite result_bind.
    destruct (result (open_dataset fs p)) as [e'|nc]; [done|].
    unfold extract_bbox_fallback.
    destruct (find_coord_array (root nc) lat_names) as [lat_arr|];
      [|rewrite result_ret; intros [= <-]; by left].
    destruct (find_coord_array (root nc) lon_names) as [lon_arr|];
      [|rewrite result_ret; intros [= <-]; by left].
    intros Hb. right. by exists lat_arr, lon_arr.
  - intros [= ->]. unfold xarray_strategies in Hxr. rewrite result_bind in Hxr.
    destruct (result (open_xarray fs p)) as [e'|ds]; [done|].
    unfold xarray_bbox in Hxr. rewrite result_bind in Hxr.
    destruct (result (except_ValueError _ _)) as [e'|arrs]; [done|].
    right. by exists arrs.1, arrs.2.
Qed.

Section BoxOrder.
Context {du : Dateutil} {xx : Xxhash}.

(** X11.  Whatever strategy gave it, the bounding box that goes with a
    record is four [None] or four floats, never a mix, and on each axis the
    least is not above the greatest; the two are NaN together, when the
    coordinate array holds nothing but NaN. *)
Theorem bounding_boxes_are_in_order (fs : FS) (p : string) (metas : list Meta)
    (bboxes : list BBox) (b : BBox) :
  result (extract_metadata fs p) = inr (Records metas bboxes) →
  b ∈ bboxes →
  box_in_order b.
Proof.
  intros Hres Hb.
  destruct (fs !! p) as [f|] eqn:Hf.
  2:{ unfold extract_metadata in Hres. by rewrite result_bind, result_stat, Hf in Hres. }
  destruct (extract_metadata_records _ _ _ _ _ Hf Hres)
    as [[_ ->]|(nc & head & bbox & _ & _ & Hgeo & Heq)].
  { by apply elem_of_nil in Hb. }
  unfold records_of in Heq. injection Heq as _ ->.
  apply list_elem_of_fmap in Hb as (v & -> & _).
  apply geospatial_inv in Hgeo as [->|(lat_arr & lon_arr & Hbox)]; [by left|].
  apply bbox_of_arrays_inv in Hbox as (a & b' & c & d & -> & Ha & Hb' & Hc & Hd).
  right. exists a, b', c, d. split; [done|]. split; by eapply extrema_in_order.
Qed.


End BoxOrder.

(** ** What the extractor does to the file system *)

Lemma pure_bind {A B} (m : M A) (k : A → M B) :
  trace m = [] → (∀ a, trace (k a) = []) → trace (m ≫= k) = [].
Proof.
  intros Hm Hk. rewrite trace_bind, Hm. destruct (result m); [done|apply Hk].
Qed.

Lemma trace_except_ValueError {A} (m h : M A) :
  trace (except_ValueError m h) =
  trace m ++ match result m with
             | inl ValueError => trace h
             | _ => []
             end.
Proof.
  destruct m as [t [[]|a]]; cbn; try (by rewrite app_nil_r). by destruct h.
Qed.

Lemma pure_find_lat_lon (ds : XrDataset) : trace (find_lat_lon ds) = [].
Proof.
  unfold find_lat_lon. destruct (foldl _ _ _) as [lat_name lon_name].
  destruct (_ && _); [done|]. destruct (_ && _); [done|]. by destruct (_ && _).
Qed.

Lemma pure_values_of (ds : XrDataset) (v : string) : trace (values_of ds v) = [].
Proof. unfold values_of. by destruct (lookup_variable ds v). Qed.

Lemma pure_all_values_of (ds : XrDataset) (names : list string) :
  trace (all_values_of ds names) = [].
Proof.
  induction names as [|v names IH]; [done|]. cbn [all_values_of].
  apply pure_bind; [apply pure_values_of|]. intros a.
  apply pure_bind; [apply IH|done].
Qed.

Lemma pure_np_array (rows : list ndarray) : trace (np_array rows) = [].
Proof. destruct rows as [|r rest]; [done|]. cbn. by destruct (forallb _ _). Qed.

Lemma pure_reduce (f : float → float → float) (a : ndarray) : trace (reduce f a) = [].
Proof. by destruct a. Qed.

Lemma pure_bbox_of_arrays (lat_arr lon_arr : ndarray) :
  trace (bbox_of_arrays lat_arr lon_arr) = [].
Proof.
  unfold bbox_of_arrays, np_nanmin, np_nanmax.
  repeat (apply pure_bind; [apply pure_reduce|intros ?]). done.
Qed.

Lemma pure_xarray_bbox (ds : XrDataset) : trace (xarray_bbox ds) = [].
Proof.
  unfold xarray_bbox. apply pure_bind; [|intros arrs; apply pure_bbox_of_arrays].
  rewrite trace_except_ValueError.
  assert (Hd : trace (direct_coordinates ds) = []).
  { unfold direct_coordinates. apply pure_bind; [apply pure_find_lat_lon|intros names].
    apply pure_bind; [apply pure_values_of|intros lat_arr].
    apply pure_bind; [apply pure_values_of|done]. }
  assert (Hc : trace (corner_coordinates ds) = []).
  { unfold corner_coordinates. destruct (_ && _); [|done].
    apply pure_bind; [|intros lat_corners].
    { apply pure_bind; [apply pure_all_values_of|apply pure_np_array]. }
    apply pure_bind; [|done].
    apply pure_bind; [apply pure_all_values_of|apply pure_np_array]. }
  rewrite Hd, Hc. by destruct (result (direct_coordinates ds)) as [[]|].
Qed.

Lemma pure_extract_bbox_fallback (nc : Dataset) : trace (extract_bbox_fallback nc) = [].
Proof.
  unfold extract_bbox_fallback.
  destruct (find_coord_array _ lat_names); [|done].
  destruct (find_coord_array _ lon_names); [|done]. apply pure_bbox_of_arrays.
Qed.

(** xarray opens the file; netCDF4 opens it for the box only when the
    xarray strategies have failed. *)
Lemma trace_geospatial (fs : FS) (p : string) :
  trace (geospatial fs p) =
  EvOpenXarray p ::
  match result (xarray_strategies fs p) with
  | inl _ => [EvOpenDataset p]
  | inr _ => []
  end.
Proof.
  unfold geospatial. rewrite trace_try_except.
  assert (Hx : trace (xarray_strategies fs p) = [EvOpenXarray p]).
  { unfold xarray_strategies, open_xarray. rewrite trace_bind, trace_open_with.
    destruct (result (open_with _ _ _ _)); [done|]. by rewrite pure_xarray_bbox. }
  assert (Hr : trace (raw_strategy fs p) = [EvOpenDataset p]).
  { unfold raw_strategy, open_dataset. rewrite trace_bind, trace_open_with.
    destruct (result (open_with _ _ _ _)); [done|]. by rewrite pure_extract_bbox_fallback. }
  rewrite Hx, Hr. by destruct (result (xarray_strategies fs p)).
Qed.

Section Footprint.
Context {du : Dateutil} {xx : Xxhash}.

(** X13.  All that the extractor does to the outside for a file under the
    size guard, in order: it asks for the size, xarray opens the file,
    netCDF4 opens it for the bounding box only if the xarray strategies
    failed; then, unless the bounding-box step itself failed, it asks for
    the size again, reads the head of the file and, if that went well, has
    netCDF4 open the file for the variables and the attributes.  Nothing is
    printed, and no other path is touched. *)
Theorem extract_metadata_footprint (fs : FS) (p : string) (f : NcFile) :
  fs !! p = Some f →
  st_size f ≤ MAX_SIZE_MB * 1024 * 1024 →
  trace (extract_metadata fs p) =
  [EvStat p; EvOpenXarray p] ++
  match result (xarray_strategies fs p) with
  | inl _ => [EvOpenDataset p]
  | inr _ => []
  end ++
  match result (geospatial fs p) with
  | inl _ => []
  | inr _ =>
      [EvStat p; EvOpenBinary p] ++
      match head8k f with
      | inl _ => []
      | inr _ => [EvOpenDataset p]
      end
  end.
Proof.
  intros Hf Hsize. unfold extract_metadata.
  rewrite trace_bind, trace_stat, result_stat, Hf.
  destruct (Z.ltb_spec (MAX_SIZE_MB * 1024 * 1024) (st_size f)) as [?|_]; [lia|].
  rewrite trace_try_except, trace_bind, trace_geospatial, result_bind.
  destruct (result (geospatial fs p)) as [e|bbox].
  { cbn. by rewrite !app_nil_r. }
  rewrite trace_bind, trace_stat, result_bind, result_stat, Hf.
  unfold read_head, open_dataset.
  rewrite trace_bind, trace_open_with, result_bind, result_open_with, Hf.
  destruct (head8k f) as [e|head].
  { cbn. by rewrite !app_nil_r. }
  rewrite trace_bind, trace_open_with, result_bind, result_open_with, Hf.
  destruct (nc_view f) as [e|nc].
  { cbn. by rewrite !app_nil_r. }
  destruct (matched_vars _); cbn; by rewrite !app_nil_r.
Qed.

End Footprint.

(** ** The names of the coordinate variables ([core/helpers.py]) *)

Lemma has_variable_elem_of {A} (vars : list (string * A)) (name : string) :
  has_variable vars name = true ↔ name ∈ vars.*1.
Proof.
  unfold has_variable. induction vars as [|[n a] vars IH]; cbn.
  - split; [done|]. intros H. by apply elem_of_nil in H.
  - rewrite orb_true_iff, IH, elem_of_cons, String.eqb_eq. split; intros [?|?]; auto.
Qed.

Lemma lookup_variable_Some {A} (vars : list (string * A)) (name : string) :
  is_Some (lookup_variable vars name) ↔ name ∈ vars.*1.
Proof.
  induction vars as [|[n a] vars IH]; cbn.
  - split; [by intros [? ?]|]. intros H. by apply elem_of_nil in H.
  - rewrite elem_of_cons. destruct (String.eqb_spec n name) as [->|Hne].
    + split; [by left|by eexists].
    + rewrite IH. split; [by right|]. intros [?|?]; [congruence|done].
Qed.

Lemma truthy_Some (o : option string) :
  truthy o = true → ∃ n, o = Some n ∧ n ≠ "".
Proof. destruct o as [[|c n]|]; cbn; try done. intros _. by eexists. Qed.

Lemma head_elem_of {A} (l : list A) (x : A) : head l = Some x → x ∈ l.
Proof. destruct l; [done|]. intros [= ->]. by left. Qed.

Lemma last_tagged_elem_of (tags : list string) (ds : XrDataset) (n : string) :
  last_tagged tags ds = Some n → n ∈ ds.*1.
Proof.
  induction ds as [|nv ds IH]; [done|]. cbn [last_tagged].
  destruct (last_tagged tags ds) as [n'|].
  - intros [= <-]. right. by apply IH.
  - destruct (tagged tags nv); [|done]. intros [= <-]. by left.
Qed.

(** The first pass of [find_lat_lon]: each name is that of the last
    variable carrying one of the tags, or what it was. *)
Lemma find_lat_lon_pass (ds : XrDataset) (acc : option string * option string) :
  foldl (λ acc nv,
           let std := lower (standard_name nv.2) in
           (if str_in std ["latitude"; "grid_latitude"] then Some nv.1 else acc.1,
            if str_in std ["longitude"; "grid_longitude"] then Some nv.1 else acc.2))
        acc ds =
  (match last_tagged ["latitude"; "grid_latitude"] ds with
   | Some n => Some n | None => acc.1 end,
   match last_tagged ["longitude"; "grid_longitude"] ds with
   | Some n => Some n | None => acc.2 end).
Proof.
  revert acc. induction ds as [|nv ds IH]; intros acc; [by destruct acc|].
  cbn [foldl last_tagged]. rewrite IH. clear IH. cbn [fst snd]. unfold tagged.
  f_equal.
  - destruct (last_tagged ["latitude"; "grid_latitude"] ds); [done|].
    by destruct (str_in _ _).
  - destruct (last_tagged ["longitude"; "grid_longitude"] ds); [done|].
    by destruct (str_in _ _).
Qed.

(** X15.  What [find_lat_lon] returns can be looked up.  The two names it
    returns are not empty and are names of variables of the dataset, so
    reading their values, as [extract_metadata] does next, raises no
    [KeyError]: the direct search returns the two arrays. *)
Theorem find_lat_lon_names_variables (ds : XrDataset) (lat lon : string) :
  result (find_lat_lon ds) = inr (lat, lon) →
  (lat ≠ "" ∧ has_variable ds lat = true) ∧
  (lon ≠ "" ∧ has_variable ds lon = true) ∧
  ∃ lat_arr lon_arr, direct_coordinates ds = mret (lat_arr, lon_arr).
Proof.
  intros Hres.
  assert (Hnames : (lat ≠ "" ∧ has_variable ds lat = true) ∧
                   (lon ≠ "" ∧ has_variable ds lon = true)).
  { revert Hres. unfold find_lat_lon. rewrite find_lat_lon_pass. cbn [fst snd].
    destruct (truthy _ && truthy _) eqn:Htag.
    - apply andb_prop in Htag as [(n1 & H1 & Hn1)%truthy_Some (n2 & H2 & Hn2)%truthy_Some].
      rewrite H1, H2. cbn. intros Heq. injection Heq as <- <-.
      destruct (last_tagged ["latitude"; "grid_latitude"] ds) as [n1'|] eqn:L1; [|done].
      destruct (last_tagged ["longitude"; "grid_longitude"] ds) as [n2'|] eqn:L2; [|done].
      injection H1 as ->. injection H2 as ->.
      apply last_tagged_elem_of in L1, L2.
      split; (split; [done|]); by apply has_variable_elem_of.
    - destruct (has_variable ds "nav_lat" && has_variable ds "nav_lon") eqn:Hnav.
      + apply andb_prop in Hnav as [? ?]. cbn. intros Heq. injection Heq as <- <-.
        by repeat split.
      + clear Htag Hnav. destruct (truthy (head _) && truthy (head _)) eqn:Hre; [|by cbn].
        apply andb_prop in Hre as [(n1 & H1 & Hn1)%truthy_Some (n2 & H2 & Hn2)%truthy_Some].
        rewrite H1, H2. cbn. intros Heq. injection Heq as <- <-.
        apply head_elem_of, list_elem_of_filter in H1 as [_ H1].
        apply head_elem_of, list_elem_of_filter in H2 as [_ H2].
        split; (split; [done|]); by apply has_variable_elem_of. }
  split; [apply Hnames|]. split; [apply Hnames|].
  destruct Hnames as [[_ Hlat] [_ Hlon]].
  apply has_variable_elem_of, lookup_variable_Some in Hlat as [vlat Hvlat].
  apply has_variable_elem_of, lookup_variable_Some in Hlon as [vlon Hvlon].
  exists (xr_values vlat), (xr_values vlon).
  unfold direct_coordinates. rewrite (M_eq (find_lat_lon ds)), pure_find_lat_lon, Hres.
  unfold values_of. cbn. by rewrite Hvlat, Hvlon.
Qed.

(** X16.  CF standard names come first.  When a variable is tagged as a
    latitude and one as a longitude, [find_lat_lon] returns those two names,
    whatever the variables are called and whether [nav_lat] and [nav_lon]
    are there; of several variables with the tag of one axis, the last of
    the dataset counts. *)
Theorem standard_names_come_first (ds : XrDataset) (lat lon : string) :
  last_tagged ["latitude"; "grid_latitude"] ds = Some lat →
  last_tagged ["longitude"; "grid_longitude"] ds = Some lon →
  lat ≠ "" → lon ≠ "" →
  find_lat_lon ds = mret (lat, lon).
Proof.
  intros Hlat Hlon Hn1 Hn2. unfold find_lat_lon.
  rewrite find_lat_lon_pass, Hlat, Hlon.
  destruct lat; [done|]. destruct lon; [done|]. done.
Qed.

(** X17.  Both axes are needed.  A dataset in which nothing marks a
    latitude, or in which nothing marks a longitude (no tag, no [nav_] name,
    no name ending as the pattern asks), makes [find_lat_lon] raise
    [ValueError], whatever it holds for the other axis. *)
Theorem find_lat_lon_needs_both_axes (ds : XrDataset) :
  Forall (unmarked ["latitude"; "grid_latitude"] "nav_lat" "lat" "latitude") ds ∨
  Forall (unmarked ["longitude"; "grid_longitude"] "nav_lon" "lon" "longitude") ds →
  result (find_lat_lon ds) = inl ValueError.
Proof.
  intros [Hds|Hds]; [by apply find_lat_lon_without_latitude|].
  assert (Hnav : has_variable ds "nav_lon" = false).
  { unfold has_variable. induction Hds as [|nv ds (_ & Hn & _) _ IH]; [done|].
    cbn. rewrite IH, orb_false_r. by apply String.eqb_neq. }
  assert (Hre : filter (λ n, coord_regex "lon" "longitude" n = true) ds.*1 = []).
  { clear Hnav. induction Hds as [|nv ds (_ & _ & Hr) _ IH]; [done|].
    rewrite fmap_cons, filter_cons_False by congruence. exact IH. }
  assert (Htag : last_tagged ["longitude"; "grid_longitude"] ds = None).
  { clear Hnav Hre. induction Hds as [|nv ds (Hstd & _ & _) _ IH]; [done|].
    cbn [last_tagged]. by rewrite IH, Hstd. }
  unfold find_lat_lon. rewrite find_lat_lon_pass, Htag. cbn [fst snd truthy].
  rewrite andb_false_r, Hnav, andb_false_r, Hre. cbn [head truthy].
  by rewrite andb_false_r.
Qed.

(** ** The search through the groups *)

Lemma first_present_Some (vars : list (string * ndarray)) (coord_names : list string) :
  is_Some (first_present vars coord_names) ↔ ∃ n, n ∈ coord_names ∧ n ∈ vars.*1.
Proof.
  induction coord_names as [|name rest IH]; cbn.
  - split; [by intros [? ?]|]. intros (n & Hn & _). by apply elem_of_nil in Hn.
  - destruct (lookup_variable vars name) as [a|] eqn:Hl.
    + split; [|by eexists]. intros _. exists name. split; [by left|].
      apply lookup_variable_Some. by eexists.
    + rewrite IH. split.
      * intros (n & Hn & Hv). exists n. split; [by right|done].
      * intros (n & [->|Hn]%elem_of_cons & Hv); [|by exists n].
        apply lookup_variable_Some in Hv as [a Ha]. congruence.
Qed.

(** [find_coord_array] finds an array exactly when one of the names is
    that of a variable declared in the group or in a group nested in it,
    at any depth. *)
Lemma find_coord_array_finds_declared (grp : Group) (coord_names : list string) :
  is_Some (find_coord_array grp coord_names) ↔
  ∃ n, n ∈ coord_names ∧ declares grp n.
Proof.
  induction grp as [vars subs IH] using Group_nested_ind.
  cbn [find_coord_array].
  set (below := fix in_subgroups (subs : list (string * Group)) : option ndarray :=
         match subs with
         | [] => None
         | (_, subgrp) :: rest =>
             match find_coord_array subgrp coord_names with
             | Some a => Some a
             | None => in_subgroups rest
             end
         end).
  assert (Hbelow : is_Some (below subs) ↔
            ∃ n name sub, n ∈ coord_names ∧ (name, sub) ∈ subs ∧ declares sub n).
  { induction subs as [|[name sub] subs IHs]; cbn.
    - split; [by intros [? ?]|].
      intros (? & ? & ? & _ & Hin & _). by apply elem_of_nil in Hin.
    - apply Forall_cons in IH as [Hsub Hrest]. cbn in Hsub.
      destruct (find_coord_array sub coord_names) as [a|] eqn:Hf.
      + split; [|by eexists]. intros _.
        destruct (proj1 Hsub) as (n & Hn & Hd); [by eexists|].
        exists n, name, sub. split; [done|]. split; [by left|done].
      + rewrite (IHs Hrest). split.
        * intros (n & nm & s & Hn & Hin & Hd). exists n, nm, s. split; [done|].
          split; [by right|done].
        * intros (n & nm & s & Hn & [Heq|Hin]%elem_of_cons & Hd); [|by exists n, nm, s].
          injection Heq as -> ->.
          destruct (proj2 Hsub) as [a Ha]; [by exists n|]. congruence. }
  destruct (first_present vars coord_names) as [a|] eqn:Hfp.
  - split; [|by eexists]. intros _.
    destruct (proj1 (first_present_Some vars coord_names)) as (n & Hn & Hv); [by eexists|].
    exists n. split; [done|].
    apply list_elem_of_fmap in Hv as ([n' a'] & -> & Hin). by eapply declares_here.
  - rewrite Hbelow. split.
    + intros (n & nm & s & Hn & Hin & Hd). exists n. split; [done|].
      by eapply declares_below.
    + intros (n & Hn & Hd). inversion Hd; subst.
      * destruct (proj2 (first_present_Some vars coord_names)) as [a' Ha'].
        { exists n. split; [done|]. apply list_elem_of_fmap. by exists (n, a). }
        congruence.
      * by exists n, name, sub.
Qed.

(** X14.  When the last strategy has no box to give.
    [extract_bbox_fallback] answers four [None] exactly when the file
    declares, at whatever depth of its groups, none of the four latitude
    names or none of the four longitude names; with a name of each axis
    declared somewhere it answers four floats, or raises on an empty array. *)
Theorem raw_fallback_needs_both_axes (nc : Dataset) :
  extract_bbox_fallback nc = mret no_bbox ↔
  (∀ n, n ∈ lat_names → ¬ declares (root nc) n) ∨
  (∀ n, n ∈ lon_names → ¬ declares (root nc) n).
Proof.
  unfold extract_bbox_fallback.
  pose proof (find_coord_array_finds_declared (root nc) lat_names) as Hlat.
  pose proof (find_coord_array_finds_declared (root nc) lon_names) as Hlon.
  destruct (find_coord_array (root nc) lat_names) as [lat_arr|].
  - destruct (find_coord_array (root nc) lon_names) as [lon_arr|].
    + split.
      * intros Heq. exfalso.
        assert (Hr : result (bbox_of_arrays lat_arr lon_arr) = inr no_bbox)
          by (by rewrite Heq).
        by apply bbox_of_arrays_inv in Hr as (a & b' & c & d & ? & _).
      * intros [Hno|Hno]; exfalso.
        -- destruct (proj1 Hlat) as (n & Hn & Hd); [by eexists|]. by eapply Hno.
        -- destruct (proj1 Hlon) as (n & Hn & Hd); [by eexists|]. by eapply Hno.
    + split; [|done]. intros _. right. intros n Hn Hd.
      destruct (proj2 Hlon) as [? ?]; [by exists n|done].
  - split; [|done]. intros _. left. intros n Hn Hd.
    destruct (proj2 Hlat) as [? ?]; [by exists n|done].
Qed.

(** ** Normal forms of the times *)

Section NormalForm.
Context {du : Dateutil}.


End NormalForm.












(** ** The service and the store *)

(** Two intervals meet when each starts before the other ends. *)
Lemma intervals_meet (a1 a2 b1 b2 : Q) :
  (a1 <= a2)%Q → (b1 <= b2)%Q →
  (a1 <= b2)%Q ∧ (b1 <= a2)%Q ↔
  ∃ x, (a1 <= x)%Q ∧ (x <= a2)%Q ∧ (b1 <= x)%Q ∧ (x <= b2)%Q.
Proof.
  intros Ha Hb. split.
  - intros [H1 H2]. destruct (Qlt_le_dec a1 b1) as [Hlt|Hle].
    + exists b1. repeat split; try done; [by apply Qlt_le_weak|apply Qle_refl].
    + exists a1. repeat split; try done. apply Qle_refl.
  - intros (x & H1 & H2 & H3 & H4). split; eapply Qle_trans; eauto.
Qed.

Section ServiceFacts.
Context {pf : PyFloat}.

(** X23.  The area filter is an intersection test.  A request
    [bbox=latmin,lonmin,latmax,lonmax] of four finite numbers, with [latmin
    <= latmax] and [lonmin <= lonmax], selects a product whose bounding box
    is finite and in order exactly when the two rectangles have a point in
    common: the four parameters are bound to the four comparisons the right
    way round. *)
Theorem area_search_is_intersection (bbox s1 s2 s3 s4 : string) (q1 q2 q3 q4 : Q)
    (st : Store) (i : Z) (m : Meta) (a1 a2 c1 c2 : Q) :
  split "," bbox = [s1; s2; s3; s4] →
  float_of_str s1 = Some (Finite q1) → float_of_str s2 = Some (Finite q2) →
  float_of_str s3 = Some (Finite q3) → float_of_str s4 = Some (Finite q4) →
  (q1 <= q3)%Q → (q2 <= q4)%Q →
  bbox_index st !! i = Some (finite_box a1 a2 c1 c2) →
  (a1 <= a2)%Q → (c1 <= c2)%Q →
  list_items_where None None None None (Some bbox) st i m = inr true ↔
  ∃ x y, in_rectangle a1 a2 c1 c2 x y ∧ in_rectangle q1 q3 q2 q4 x y.
Proof.
  intros Hsplit H1 H2 H3 H4 Hq13 Hq24 Hb Ha Hc.
  assert (Hne : truthy (Some bbox) = true).
  { destruct bbox; [done|done]. }
  unfold list_items_where. rewrite Hne. cbn [truthy andb].
  change (default "" (Some bbox)) with bbox. unfold _parse_bbox.
  rewrite Hsplit. cbn [fmap list_fmap]. rewrite H1, H2, H3, H4, Hb.
  cbn [subq finite_box lat_min lat_max lon_min lon_max sql_le float_leb].
  split.
  - intros [= Hall]. apply andb_prop in Hall as [Hall Hd].
    apply andb_prop in Hall as [Hall Hcc]. apply andb_prop in Hall as [Haa Hbb].
    apply Qle_bool_iff in Haa, Hbb, Hcc, Hd.
    destruct (proj1 (intervals_meet a1 a2 q1 q3 Ha Hq13)) as (x & ? & ? & ? & ?); [done|].
    destruct (proj1 (intervals_meet c1 c2 q2 q4 Hc Hq24)) as (y & ? & ? & ? & ?); [done|].
    exists x, y. by repeat split.
  - intros (x & y & (X1 & X2 & Y1 & Y2) & (X3 & X4 & Y3 & Y4)).
    destruct (proj2 (intervals_meet a1 a2 q1 q3 Ha Hq13)) as [? ?]; [by exists x|].
    destruct (proj2 (intervals_meet c1 c2 q2 q4 Hc Hq24)) as [? ?]; [by exists y|].
    f_equal. repeat (apply andb_true_intro; split); by apply Qle_bool_iff.
Qed.

(** X24.  An item the service shows with a null latitude (its product has no
    row in [bbox_index], or a row of nulls, or its coordinates held nothing
    but NaN) is selected by no area filter, whatever the rectangle asked for
    and the other filters: with [bbox] given the answer is an error or
    leaves the item out. *)
Theorem items_without_box_escape_area_search (start end' satellite' product_type' : option string)
    (bbox : string) (st : Store) (i : Z) (m : Meta) :
  bbox ≠ "" →
  api.lat_min (joined_row st i m) = None →
  list_items_where start end' satellite' product_type' (Some bbox) st i m ≠ inr true.
Proof.
  intros Hne Hnull. unfold list_items_where.
  assert (Ht : truthy (Some bbox) = true) by (by destruct bbox).
  rewrite Ht. change (default "" (Some bbox)) with bbox.
  destruct (_parse_bbox bbox) as [err|[[[qa qb] qc] qd]]; [done|].
  unfold joined_row in Hnull. cbn [api.lat_min] in Hnull.
  destruct (bbox_index st !! i) as [b|].
  - assert (Hs : sql_le (lat_min b) (Some qb) = false).
    { change (default no_bbox (Some b)) with b in Hnull.
      by destruct (lat_min b) as [[]|]. }
    cbn [subq]. rewrite Hs. cbn [andb]. by rewrite andb_false_r.
  - by rewrite andb_false_r.
Qed.


(** X26.  A product whose start time is unknown (the empty text) is selected
    by no request that gives [start], whatever the date and the other
    filters. *)
Theorem undated_items_escape_date_search (start : string) (end' satellite' product_type'
    bbox : option string) (st : Store) (i : Z) (m : Meta) :
  start ≠ "" →
  datetime_start m = "" →
  list_items_where (Some start) end' satellite' product_type' bbox st i m ≠ inr true.
Proof.
  intros Hne Hs. unfold list_items_where.
  assert (Ht : truthy (Some start) = true) by (by destruct start).
  rewrite Ht, Hs. change (default "" (Some start)) with start.
  assert (Hl : String.leb start "" = false) by (by destruct start).
  rewrite Hl. cbn [andb].
  destruct (truthy bbox); [|done].
  by destruct (_parse_bbox _) as [err|[[[qa qb] qc] qd]].
Qed.

End ServiceFacts.

Lemma filter_the_one {A} (P : A → Prop) `{∀ x, Decision (P x)} (l : list A) (x : A) :
  NoDup l → x ∈ l → P x → (∀ y, y ∈ l → P y → y = x) → filter P l = [x].
Proof.
  induction l as [|z l IH]; intros Hnd Hin Hx Huniq.
  { by apply elem_of_nil in Hin. }
  apply NoDup_cons in Hnd as [Hz Hnd]. rewrite filter_cons.
  apply elem_of_cons in Hin as [<-|Hin].
  - rewrite decide_True by done. f_equal.
    apply list_eq_nil || idtac.
    destruct (filter P l) as [|y l'] eqn:Hf; [done|]. exfalso.
    assert (Hy : y ∈ filter P l) by (rewrite Hf; by left).
    apply list_elem_of_filter in Hy as [Hy1 Hy2].
    assert (y = x) by (apply Huniq; [by right|done]). by subst.
  - destruct (decide (P z)) as [Hz'|Hz'].
    + assert (z = x) by (apply Huniq; [by left|done]). by subst.
    + apply IH; try done. intros y Hy. apply Huniq. by right.
Qed.

Lemma get_item_found (st : Store) (k : string * string) (j : Z) (m : Meta) :
  wf st → products st !! k = Some (j, m) → get_item j st = inr (joined_row st j m).
Proof.
  intros (_ & Hinj & _) Hk. unfold get_item.
  rewrite (filter_the_one _ _ (k, (j, m))); [done| | |done|].
  - apply NoDup_map_to_list.
  - by apply elem_of_map_to_list.
  - intros [k' [j' m']] Hin Hj. cbn in Hj. subst j'.
    apply elem_of_map_to_list in Hin.
    assert (k' = k) as -> by (by eapply Hinj). congruence.
Qed.

Lemma get_item_missing (st : Store) (j : Z) :
  (∀ k m, products st !! k ≠ Some (j, m)) → get_item j st = inl 404.
Proof.
  intros Hno. unfold get_item.
  destruct (filter _ _) as [|[k [j' m]] l] eqn:Hf; [done|]. exfalso.
  assert (Hin : (k, (j', m)) ∈ filter (λ kr : string * string * (Z * Meta), kr.2.1 = j)
                                 (map_to_list (products st))) by (rewrite Hf; by left).
  apply list_elem_of_filter in Hin as [Hj Hin]. cbn in Hj. subst j'.
  apply elem_of_map_to_list in Hin. by eapply Hno.
Qed.

(** X27.  The removal by the desktop application, seen through the service.
    On a well-formed store [get_item] answers the row of a product with its
    bounding box; after [delete_item] on its identifier it answers 404 for
    that identifier, and what it answers for every other identifier is
    unchanged. *)
Theorem deleted_item_is_not_found (st : Store) (k : string * string) (i : Z) (m : Meta) :
  wf st → products st !! k = Some (i, m) →
  get_item i st = inr (joined_row st i m) ∧
  get_item i (delete_item i st) = inl 404 ∧
  ∀ j, j ≠ i → get_item j (delete_item i st) = get_item j st.
Proof.
  intros Hwf Hk. split; [by eapply get_item_found|]. split.
  - apply get_item_missing. intros k' m' [_ Hne]%map_lookup_filter_Some. by apply Hne.
  - intros j Hj.
    destruct (filter (λ kr : string * string * (Z * Meta), kr.2.1 = j)
                     (map_to_list (products st))) as [|[k' [j' m']] l] eqn:Hf.
    + assert (Hno : ∀ k0 m0, products st !! k0 ≠ Some (j, m0)).
      { intros k0 m0 Hk0.
        assert (Hin : (k0, (j, m0)) ∈ filter (λ kr : string * string * (Z * Meta), kr.2.1 = j)
                                        (map_to_list (products st))).
        { apply list_elem_of_filter. split; [done|]. by apply elem_of_map_to_list. }
        rewrite Hf in Hin. by apply elem_of_nil in Hin. }
      rewrite (get_item_missing st j Hno). apply get_item_missing.
      intros k0 m0 [Hk0 _]%map_lookup_filter_Some. by eapply Hno.
    + assert (Hin : (k', (j', m')) ∈ filter (λ kr : string * string * (Z * Meta), kr.2.1 = j)
                                       (map_to_list (products st))) by (rewrite Hf; by left).
      apply list_elem_of_filter in Hin as [Hj' Hin]. cbn in Hj'. subst j'.
      apply elem_of_map_to_list in Hin.
      rewrite (get_item_found st k' j m' Hwf Hin).
      rewrite (get_item_found (delete_item i st) k' j m').
      * unfold joined_row. cbn [bbox_index delete_item]. by rewrite lookup_delete_ne.
      * by apply wf_delete_item.
      * cbn. by apply map_lookup_filter_Some.
Qed.

(** ** The events of a run *)

Section Log.
Context {du : Dateutil} {xx : Xxhash} {sch : Schema}.




End Log.

(** ** Where the rows of a run come from *)

Section Steps.
Context {sch : Schema}.

(** What the two inserts keep, for the records and the boxes of the
    deques, a flush keeps. *)
Lemma flush_invariant_steps (P : Store → Prop) (ms : list Meta) (bs : list BBox)
    (st : Store) rest st' :
  (∀ s m, m ∈ ms → P s → P (exec_ins_product m s)) →
  (∀ s i b, b ∈ bs → P s → P (exec_ins_bbox i b s)) →
  P st → result (_flush ms bs st) = inr (rest, st') → P st'.
Proof.
  revert bs st. induction ms as [|meta ms IH]; intros bs st Hprod Hbox HP.
  - cbn. by intros [= <- <-].
  - cbn [_flush].
    assert (HP1 : P (exec_ins_product meta st)) by (apply Hprod; [by left|done]).
    assert (Hprod' : ∀ s m, m ∈ ms → P s → P (exec_ins_product m s)).
    { intros s m Hm. apply Hprod. by right. }
    destruct (select_id _ _) as [i|].
    + destruct bs as [|b bs]; [done|]. apply IH; [done| |].
      * intros s j b' Hb'. apply Hbox. by right.
      * apply Hbox; [by left|done].
    + by apply IH.
Qed.

End Steps.

Section Provenance.
Context {du : Dateutil} {xx : Xxhash} {sch : Schema}.

(** The same for a run that commits, for the records and the boxes of its
    files. *)
Lemma ingest_invariant_steps (P : Store → Prop) (fs : FS) (arrival : list string)
    (st st1 : Store) :
  (∀ s p mb, p ∈ arrival → mb ∈ pairs_of fs p → P s → P (exec_ins_product mb.1 s)) →
  (∀ s i p mb, p ∈ arrival → mb ∈ pairs_of fs p → P s → P (exec_ins_bbox i mb.2 s)) →
  P st → result (ingest fs arrival st) = inr st1 → P st1.
Proof.
  intros Hprod Hbox HP Hrun.
  destruct (ingest_committed_one_flush _ _ _ _ Hrun) as [rest Hfl].
  eapply flush_invariant_steps; [| |exact HP|exact Hfl].
  - intros s m (mb & -> & Hmb)%list_elem_of_fmap.
    apply list_elem_of_bind in Hmb as (p & Hmb & Hp). by eapply Hprod.
  - intros s i b (mb & -> & Hmb)%list_elem_of_fmap.
    apply list_elem_of_bind in Hmb as (p & Hmb & Hp). by eapply Hbox.
Qed.

(** X28.  A run stores only what it extracted.  After a run that commits,
    every product of the store was there before, with the same identifier
    and columns, or is a record of a file of the run, stored with the
    columns of that record under the path of the file and its product type;
    and every row of [bbox_index] was there before or holds the bounding
    box of a record of a file of the run. *)
Theorem ingest_stores_only_what_it_extracted (fs : FS) (arrival : list string)
    (st st1 : Store) :
  result (ingest fs arrival st) = inr st1 →
  (∀ k i m, products st1 !! k = Some (i, m) →
     products st !! k = Some (i, m) ∨
     ∃ p b, p ∈ arrival ∧ (m, b) ∈ pairs_of fs p ∧ k = (p, product_type m)) ∧
  (∀ i b, bbox_index st1 !! i = Some b →
     bbox_index st !! i = Some b ∨
     ∃ p m, p ∈ arrival ∧ (m, b) ∈ pairs_of fs p).
Proof.
  apply (ingest_invariant_steps
    (λ s, (∀ k i m, products s !! k = Some (i, m) →
             products st !! k = Some (i, m) ∨
             ∃ p b, p ∈ arrival ∧ (m, b) ∈ pairs_of fs p ∧ k = (p, product_type m)) ∧
          (∀ i b, bbox_index s !! i = Some b →
             bbox_index st !! i = Some b ∨
             ∃ p m, p ∈ arrival ∧ (m, b) ∈ pairs_of fs p))).
  - intros s p [m b] Hp Hmb [Hprods Hboxes]. cbn [fst]. split.
    + intros k i m' Hk. unfold exec_ins_product in Hk.
      destruct (products s !! key_of m) eqn:Hm; [by apply Hprods|].
      destruct (accepts m); [|by apply Hprods]. cbn in Hk.
      destruct (decide (key_of m = k)) as [<-|Hne].
      * rewrite lookup_insert_eq in Hk. injection Hk as <- <-.
        right. exists p, b. split; [done|]. split; [done|].
        pose proof (proj2 (pairs_of_keys fs p) _ Hmb) as Hpath. cbn [fst] in Hpath.
        unfold key_of. by rewrite Hpath.
      * rewrite lookup_insert_ne in Hk by done. by apply Hprods.
    + intros i b'. rewrite exec_ins_product_bbox. apply Hboxes.
  - intros s i p [m b] Hp Hmb [Hprods Hboxes]. cbn [snd]. split.
    + intros k j m'. rewrite exec_ins_bbox_products. apply Hprods.
    + intros j b' Hj. unfold exec_ins_bbox in Hj.
      destruct (bbox_index s !! i) eqn:Hi; [by apply Hboxes|]. cbn in Hj.
      destruct (decide (i = j)) as [<-|Hne].
      * rewrite lookup_insert_eq in Hj. injection Hj as <-. right. by exists p, m.
      * rewrite lookup_insert_ne in Hj by done. by apply Hboxes.
  - split; [by left|by left].
Qed.

(** X29.  What the scan leaves out is not indexed.  A run over the files
    [all_nc] keeps adds no product for a file whose stem is on the list of
    excluded stems: what the store did not hold for such a file, it does
    not hold after the run. *)
Theorem excluded_files_are_not_indexed (fs : FS) (found : list string) (st st1 : Store)
    (p v : string) :
  result (ingest fs (all_nc found) st) = inr st1 →
  str_in (path_stem p) BLACKLIST = true →
  products st !! (p, v) = None →
  products st1 !! (p, v) = None.
Proof.
  intros Hrun Hlisted. revert v.
  apply (ingest_invariant_steps
    (λ s, ∀ v, products st !! (p, v) = None → products s !! (p, v) = None)
    fs (all_nc found) st st1); [| |done|done].
  - intros s q [m b] Hq Hmb HP v Hk. cbn [fst]. unfold exec_ins_product.
    destruct (products s !! key_of m) eqn:Hm; [by apply HP|].
    destruct (accepts m); [|by apply HP]. cbn.
    destruct (decide (key_of m = (p, v))) as [Heq|Hne].
    + exfalso. unfold key_of in Heq. injection Heq as Hpath _.
      pose proof (proj2 (pairs_of_keys fs q) _ Hmb) as Hq'. cbn [fst] in Hq'.
      rewrite Hq' in Hpath. subst q.
      apply elem_of_all_nc in Hq as [_ Hq]. congruence.
    + rewrite lookup_insert_ne by done. by apply HP.
  - intros s i q mb Hq Hmb HP v. rewrite exec_ins_bbox_products. apply HP.
Qed.

End Provenance.

(** ** The further properties on the example files *)

(** Every path of a list of example files is in [example_fs]. *)
Ltac in_example_fs :=
  let p := fresh "p" in let Hp := fresh "Hp" in
  intros p Hp;
  repeat (apply elem_of_cons in Hp as [->|Hp]; [by vm_compute; eexists|]);
  by apply elem_of_nil in Hp.

Lemma wf_example_store (schema : Schema) (arrival : list string) :
  wf (example_store schema arrival).
Proof.
  unfold example_store, store_after, example_run.
  destruct (result _) as [e|st1] eqn:Hrun; [apply wf_empty_store|].
  apply (@ingest_invariant dateutil_stamps xxhash_fixed schema wf example_fs arrival
           empty_store st1); [|apply wf_empty_store|done].
  intros s mb. apply wf_load_pair.
Qed.

(** Two records and one box. *)
Lemma flush_runs_out_of_boxes_witness :
  result (@_flush schema_plain metas_A [box_of 35 45 (-10) 4] empty_store) = inl IndexError.
Proof.
  apply (@flush_runs_out_of_boxes schema_plain metas_A [box_of 35 45 (-10) 4] empty_store).
  - apply Forall_forall. intros m _. by left.
  - vm_compute. lia.
Defined.

(** The two records of the first example file, into the empty store. *)
Lemma flush_pairs_each_record_with_its_box_witness :
  ∃ st', result (@_flush schema_plain metas_A bboxes_A empty_store) = inr ([], st') ∧
         ∀ n m b, metas_A !! n = Some m → bboxes_A !! n = Some b →
                  catalogue st' !! key_of m = Some (m, Some b).
Proof.
  apply (@flush_pairs_each_record_with_its_box schema_plain metas_A bboxes_A empty_store).
  - apply wf_empty_store.
  - apply NoDup_cons. split; [|apply NoDup_singleton].
    intros Hin%list_elem_of_singleton. vm_compute in Hin. discriminate.
  - intros m _. split; [reflexivity|apply lookup_empty].
  - reflexivity.
Defined.

(** The run over four example files. *)
Lemma ingest_is_one_flush_witness :
  ∃ rest st',
    result (@_flush schema_plain
              (@stream dateutil_stamps xxhash_fixed example_fs [path_A; path_B; path_C; path_D]).*1
              (@stream dateutil_stamps xxhash_fixed example_fs [path_A; path_B; path_C; path_D]).*2
              empty_store) = inr (rest, st') ∧
    result (example_run schema_plain [path_A; path_B; path_C; path_D]) = inr st'.
Proof.
  apply (@ingest_is_one_flush dateutil_stamps xxhash_fixed schema_plain example_fs
           [path_A; path_B; path_C; path_D] empty_store).
  in_example_fs.
Defined.

(** The file over the size guard, between two others. *)
Lemma files_without_records_do_not_count_witness :
  result (example_run schema_plain [path_A; path_C; path_D])
  = result (example_run schema_plain [path_A; path_D]).
Proof.
  apply (@files_without_records_do_not_count dateutil_stamps xxhash_fixed schema_plain
           example_fs [path_A] [path_D] path_C empty_store).
  - in_example_fs.
  - vm_compute. reflexivity.
Defined.

(** A second file indexed after a first. *)
Lemma ingest_never_rewrites_witness :
  (∀ k r, products (example_store schema_plain [path_D]) !! k = Some r →
          products (example_store schema_plain [path_D; path_A]) !! k = Some r) ∧
  (∀ i b, bbox_index (example_store schema_plain [path_D]) !! i = Some b →
          bbox_index (example_store schema_plain [path_D; path_A]) !! i = Some b).
Proof.
  apply (@ingest_never_rewrites dateutil_stamps xxhash_fixed schema_plain example_fs
           [path_A] (example_store schema_plain [path_D])
           (example_store schema_plain [path_D; path_A])).
  vm_compute. reflexivity.
Defined.

(** The store after two files. *)
Lemma ingest_keeps_integrity_witness :
  wf (example_store schema_plain [path_A; path_D]) ∧
  referenced (example_store schema_plain [path_A; path_D]).
Proof.
  apply (@ingest_keeps_integrity dateutil_stamps xxhash_fixed schema_plain example_fs
           [path_A; path_D] empty_store).
  - apply wf_empty_store.
  - intros i [b Hb]. cbn in Hb. by rewrite lookup_empty in Hb.
  - vm_compute. reflexivity.
Defined.

(** The record of the file without coordinates. *)
Lemma every_record_of_a_run_is_stored_witness :
  ∃ i m b,
    products (example_store schema_plain [path_A; path_D]) !! (path_D, "sst") = Some (i, m) ∧
    bbox_index (example_store schema_plain [path_A; path_D]) !! i = Some b.
Proof.
  apply (@every_record_of_a_run_is_stored dateutil_stamps xxhash_fixed schema_plain
           example_fs [path_A; path_D] empty_store
           (example_store schema_plain [path_A; path_D]) path_D (meta_D_sst, no_bbox)).
  - vm_compute. reflexivity.
  - apply list_elem_of_further, list_elem_of_here.
  - assert (Hp : @pairs_of dateutil_stamps xxhash_fixed example_fs path_D
                 = [(meta_D_sst, no_bbox)]) by (vm_compute; reflexivity).
    rewrite Hp. apply list_elem_of_here.
  - reflexivity.
Defined.


(** The empty store and a store that was reset, under a schema that
    refuses a record. *)
Lemma ingest_respects_catalogue_witness :
  ∃ st1 st1',
    result (example_run schema_dated [path_E; path_A]) = inr st1 ∧
    result (@ingest dateutil_stamps xxhash_fixed schema_dated example_fs [path_E; path_A]
              (reset_database (example_store schema_plain [path_D]))) = inr st1' ∧
    catalogue st1 = catalogue st1'.
Proof.
  apply (@ingest_respects_catalogue dateutil_stamps xxhash_fixed schema_dated example_fs
           [path_E; path_A] empty_store (reset_database (example_store schema_plain [path_D]))).
  - in_example_fs.
  - apply wf_empty_store.
  - apply wf_reset_database.
  - reflexivity.
Defined.

(** A store of two files, reset, then two other files indexed. *)
Lemma reset_then_ingest_as_fresh_witness :
  ∃ st1 st2,
    result (@ingest dateutil_stamps xxhash_fixed schema_plain example_fs [path_D; path_A]
              (reset_database (example_store schema_plain [path_A; path_E]))) = inr st1 ∧
    result (example_run schema_plain [path_D; path_A]) = inr st2 ∧
    catalogue st1 = catalogue st2.
Proof.
  apply (@reset_then_ingest_as_fresh dateutil_stamps xxhash_fixed schema_plain example_fs
           [path_D; path_A] (example_store schema_plain [path_A; path_E])).
  in_example_fs.
Defined.

(** The product of identifier 3 removed from a store of three. *)
Lemma delete_item_removes_one_product_witness :
  catalogue (delete_item 3 (example_store schema_plain [path_A; path_D]))
    = delete (path_D, "sst") (catalogue (example_store schema_plain [path_A; path_D])) ∧
  wf (delete_item 3 (example_store schema_plain [path_A; path_D])) ∧
  (referenced (example_store schema_plain [path_A; path_D]) →
   referenced (delete_item 3 (example_store schema_plain [path_A; path_D]))).
Proof.
  apply (delete_item_removes_one_product (example_store schema_plain [path_A; path_D])
           (path_D, "sst") 3 meta_D_sst).
  - apply wf_example_store.
  - vm_compute. reflexivity.
Defined.

(** The variable of the nested group. *)
Lemma indexed_variables_are_found_witness :
  ∃ n var, find_var (root nc_D) "sst" = mret var ∧
           lower n = lower "sst" ∧
           (n, var) ∈ walk_groups (root nc_D) ≫= group_variables.
Proof.
  apply (@indexed_variables_are_found dateutil_stamps xxhash_fixed example_fs path_D file_D
           nc_D [meta_D_sst] [no_bbox] meta_D_sst).
  - vm_compute. reflexivity.
  - reflexivity.
  - vm_compute. reflexivity.
  - apply list_elem_of_here.
Defined.

(** The box of the first example file. *)
Lemma bounding_boxes_are_in_order_witness : box_in_order (box_of 35 45 (-10) 4).
Proof.
  apply (@bounding_boxes_are_in_order dateutil_stamps xxhash_fixed example_fs path_A
           metas_A bboxes_A (box_of 35 45 (-10) 4)).
  - vm_compute. reflexivity.
  - apply list_elem_of_here.
Defined.


(** The file that xarray does not open: netCDF4 opens it twice. *)
Lemma extract_metadata_footprint_witness :
  trace (@extract_metadata dateutil_stamps xxhash_fixed example_fs path_D)
  = [EvStat path_D; EvOpenXarray path_D; EvOpenDataset path_D;
     EvStat path_D; EvOpenBinary path_D; EvOpenDataset path_D].
Proof.
  rewrite (@extract_metadata_footprint dateutil_stamps xxhash_fixed example_fs path_D file_D).
  - vm_compute. reflexivity.
  - vm_compute. reflexivity.
  - vm_compute. discriminate.
Defined.

(** The dataset with [nav_lat] and [nav_lon]. *)
Lemma find_lat_lon_names_variables_witness :
  ("nav_lat" ≠ "" ∧ has_variable (xr_of file_E) "nav_lat" = true) ∧
  ("nav_lon" ≠ "" ∧ has_variable (xr_of file_E) "nav_lon" = true) ∧
  ∃ lat_arr lon_arr, direct_coordinates (xr_of file_E) = mret (lat_arr, lon_arr).
Proof.
  apply (find_lat_lon_names_variables (xr_of file_E) "nav_lat" "nav_lon").
  vm_compute. reflexivity.
Defined.

(** The dataset with tagged coordinates. *)
Lemma standard_names_come_first_witness :
  find_lat_lon (xr_of file_A) = mret ("lat", "lon").
Proof.
  apply (standard_names_come_first (xr_of file_A) "lat" "lon").
  - vm_compute. reflexivity.
  - vm_compute. reflexivity.
  - discriminate.
  - discriminate.
Defined.

(** The dataset with one variable, [radiance]. *)
Lemma find_lat_lon_needs_both_axes_witness :
  result (find_lat_lon (xr_of file_B)) = inl ValueError.
Proof.
  apply (find_lat_lon_needs_both_axes (xr_of file_B)).
  right. unfold xr_of, file_B. cbn [xr_view]. constructor; [|constructor].
  split; [vm_compute; reflexivity|]. split; [discriminate|vm_compute; reflexivity].
Defined.


(** A rectangle inside the box of the first example file. *)
Lemma area_search_is_intersection_witness :
  @list_items_where pyfloat_digits None None None None (Some "36,-9,43,3")
    (example_store schema_plain [path_A; path_D]) 2 meta_A_sst = inr true ↔
  ∃ x y, in_rectangle 35 45 (-10) 4 x y ∧ in_rectangle 36 43 (-9) 3 x y.
Proof.
  apply (@area_search_is_intersection pyfloat_digits "36,-9,43,3" "36" "-9" "43" "3"
           36 (-9) 43 3 (example_store schema_plain [path_A; path_D]) 2 meta_A_sst
           35 45 (-10) 4).
  - vm_compute. reflexivity.
  - vm_compute. reflexivity.
  - vm_compute. reflexivity.
  - vm_compute. reflexivity.
  - vm_compute. reflexivity.
  - vm_compute. discriminate.
  - vm_compute. discriminate.
  - vm_compute. reflexivity.
  - vm_compute. discriminate.
  - vm_compute. discriminate.
Defined.

(** The product of the file without coordinates. *)
Lemma items_without_box_escape_area_search_witness :
  @list_items_where pyfloat_digits None None None None (Some "36,-9,43,3")
    (example_store schema_plain [path_A; path_D]) 3 meta_D_sst ≠ inr true.
Proof.
  apply (@items_without_box_escape_area_search pyfloat_digits None None None None
           "36,-9,43,3" (example_store schema_plain [path_A; path_D]) 3 meta_D_sst).
  - discriminate.
  - vm_compute. reflexivity.
Defined.


(** The product of the file without times. *)
Lemma undated_items_escape_date_search_witness :
  @list_items_where pyfloat_digits (Some "2023-01-01T00:00:00") None None None None
    (example_store schema_plain [path_E]) 1 meta_E_sst ≠ inr true.
Proof.
  apply (@undated_items_escape_date_search pyfloat_digits "2023-01-01T00:00:00" None None
           None None (example_store schema_plain [path_E]) 1 meta_E_sst).
  - discriminate.
  - reflexivity.
Defined.

(** The product of identifier 3, before and after its removal. *)
Lemma deleted_item_is_not_found_witness :
  get_item 3 (example_store schema_plain [path_A; path_D])
    = inr (joined_row (example_store schema_plain [path_A; path_D]) 3 meta_D_sst) ∧
  get_item 3 (delete_item 3 (example_store schema_plain [path_A; path_D])) = inl 404 ∧
  ∀ j, j ≠ 3 → get_item j (delete_item 3 (example_store schema_plain [path_A; path_D]))
               = get_item j (example_store schema_plain [path_A; path_D]).
Proof.
  apply (deleted_item_is_not_found (example_store schema_plain [path_A; path_D])
           (path_D, "sst") 3 meta_D_sst).
  - apply wf_example_store.
  - vm_compute. reflexivity.
Defined.


(** Two files into the empty store. *)
Lemma ingest_stores_only_what_it_extracted_witness :
  (∀ k i m, products (example_store schema_plain [path_A; path_D]) !! k = Some (i, m) →
     products empty_store !! k = Some (i, m) ∨
     ∃ p b, p ∈ [path_A; path_D] ∧
            (m, b) ∈ @pairs_of dateutil_stamps xxhash_fixed example_fs p ∧
            k = (p, product_type m)) ∧
  (∀ i b, bbox_index (example_store schema_plain [path_A; path_D]) !! i = Some b →
     bbox_index empty_store !! i = Some b ∨
     ∃ p m, p ∈ [path_A; path_D] ∧
            (m, b) ∈ @pairs_of dateutil_stamps xxhash_fixed example_fs p).
Proof.
  apply (@ingest_stores_only_what_it_extracted dateutil_stamps xxhash_fixed schema_plain
           example_fs [path_A; path_D] empty_store).
  vm_compute. reflexivity.
Defined.

(** A scan that finds a file of excluded stem among two others. *)
Lemma excluded_files_are_not_indexed_witness :
  products (example_store schema_plain [path_A; path_D]) !! ("/data/wqsf.nc", "sst") = None.
Proof.
  apply (@excluded_files_are_not_indexed dateutil_stamps xxhash_fixed schema_plain
           example_fs [path_A; "/data/wqsf.nc"; path_D] empty_store).
  - vm_compute. reflexivity.
  - vm_compute. reflexivity.
  - apply lookup_empty.
Defined.
